(** * PySpectroscope: a shallow embedding of [spectroscope.py]

    The numeric core of [SpectrometerApp] (the two-point wavelength
    calibration, the wavelength-to-colour mapper and the spectrum
    extractor) and the two state-changing entry points that guard on a
    missing frame ([update] and [_save_snapshot]).

    Python floats are read as real numbers (exact arithmetic, no rounding);
    Python ints as [Z]; exceptions as the [Err] branch of a result type. *)

From Stdlib Require Import Reals Lra Lia ZArith List String Bool PrimFloat.
From Stdlib Require Import DecimalString Sorted.
Import ListNotations.

Local Open Scope R_scope.

(** ** Exceptions and the result monad *)

Inductive exn : Type :=
| ZeroDivisionError   (* [a / b] with [b == 0] *)
| IndexError          (* sequence index out of range *)
| cv2_error.          (* raised by OpenCV, e.g. [cvtColor] on an empty image *)

Inductive result (A : Type) : Type :=
| Ok (a : A)
| Err (e : exn).

Arguments Ok {A} a.
Arguments Err {A} e.

Definition bind {A B : Type} (m : result A) (k : A -> result B) : result B :=
  match m with
  | Ok a => k a
  | Err e => Err e
  end.

Notation "x <- m ;; k" := (bind m (fun x => k))
  (at level 61, m at next level, right associativity).

Fixpoint mapM {A B : Type} (f : A -> result B) (l : list A) : result (list B) :=
  match l with
  | [] => Ok []
  | a :: l' => b <- f a ;; bs <- mapM f l' ;; Ok (b :: bs)
  end.

(** Python's true division [a / b] on numbers. *)
Definition truediv (a b : R) : result R :=
  if Req_dec_T b 0 then Err ZeroDivisionError else Ok (a / b).

(** Boolean comparisons on reals, for the chained comparisons of the source. *)
Definition Rleb (x y : R) : bool := if Rle_dec x y then true else false.
Definition Rltb (x y : R) : bool := if Rlt_dec x y then true else false.

(** Decides every comparison of reals the goal tests, then computes. *)
Ltac real_cases :=
  unfold Rleb, Rltb;
  repeat match goal with
         | |- context [Rle_dec ?a ?b] => destruct (Rle_dec a b)
         | |- context [Rlt_dec ?a ?b] => destruct (Rlt_dec a b)
         end;
  cbn [andb]; try lra.

Module SpectrometerApp.

(** ** Class attributes *)

(** [calibration[i][0]] is a pixel column, [calibration[i][1]] a wavelength. *)
Definition calibration_t : Type := (R * R) * (R * R).

Definition calibration : calibration_t :=
  ((305, 405),   (* Mercury, 405nm *)
   (707, 631)).  (* Europium, 631nm *)

Definition FRAME_WIDTH : Z := 1280.
Definition FRAME_HEIGHT : Z := 720.

(** ** Wavelength calibration: [_nm_to_px] and [_px_to_nm] *)

Definition _nm_to_px (cal : calibration_t) (nm : R) : result R :=
  let '(px0, px1) := (fst (fst cal), fst (snd cal)) in
  let '(nm0, nm1) := (snd (fst cal), snd (snd cal)) in
  let nm_range := Rabs (nm0 - nm1) in
  let px_range := Rabs (px0 - px1) in
  pxpernm <- truediv px_range nm_range ;;
  Ok (px0 + (nm - nm0) * pxpernm).

Definition _px_to_nm (cal : calibration_t) (x : R) : result R :=
  let '(px0, px1) := (fst (fst cal), fst (snd cal)) in
  let '(nm0, nm1) := (snd (fst cal), snd (snd cal)) in
  let nm_range := Rabs (nm0 - nm1) in
  let px_range := Rabs (px0 - px1) in
  nmperpx <- truediv nm_range px_range ;;
  Ok (nm0 + (x - px0) * nmperpx).

(** ** Wavelength-to-colour mapper: [_wavelength_to_rgb] *)

Definition rgb : Type := R * R * R.

(** Python's [x ** y] on floats, for the bases and the exponent the source
    uses: the base [color * factor] is never negative and the exponent is
    [gamma = 0.8].  A positive base gives [exp (y * ln x)], base [0.0] gives
    [0.0]. *)
Definition float_pow (x y : R) : R :=
  if Rltb 0 x then Rpower x y else 0.

Definition gamma : R := 0.8.

(** The raw [(r, g, b)] after the first [if]/[elif] chain. *)
Definition raw_rgb (nm : R) : rgb :=
  if Rleb 380 nm && Rltb nm 440 then (- (nm - 440) / (440 - 380), 0, 1)
  else if Rleb 440 nm && Rltb nm 490 then (0, (nm - 440) / (490 - 440), 1)
  else if Rleb 490 nm && Rltb nm 510 then (0, 1, - (nm - 510) / (510 - 490))
  else if Rleb 510 nm && Rltb nm 580 then ((nm - 510) / (580 - 510), 1, 0)
  else if Rleb 580 nm && Rltb nm 645 then (1, - (nm - 645) / (645 - 580), 0)
  else if Rleb 645 nm && Rleb nm 780 then (1, 0, 0)
  else (0, 0, 0).

(** The local [factor] after the second [if]/[elif] chain. *)
Definition factor (nm : R) : R :=
  if Rleb 380 nm && Rltb nm 420 then 0.3 + 0.7 * (nm - 380) / (420 - 380)
  else if Rleb 420 nm && Rltb nm 701 then 1.0
  else if Rleb 701 nm && Rleb nm 780 then 0.3 + 0.7 * (780 - nm) / (780 - 700)
  else 0.0.

(** The value at [x] of the straight line through [(a, va)] and [(b, vb)]:
    "a linear ramp from [va] at [a] to [vb] at [b]". *)
Definition ramp (a va b vb x : R) : R := va + (vb - va) * (x - a) / (b - a).

(** The taper as the specification words it, to be compared with [factor]:
    0.3 to 1.0 over [380, 420), 1.0 over [420, 701), 1.0 at 701 down to 0.3
    at 780 over [701, 780], and 0 elsewhere. *)
Definition factor_spec (nm : R) : R :=
  if Rleb 380 nm && Rltb nm 420 then ramp 380 0.3 420 1.0 nm
  else if Rleb 420 nm && Rltb nm 701 then 1.0
  else if Rleb 701 nm && Rleb nm 780 then ramp 701 1.0 780 0.3 nm
  else 0.

(** The closure [adjust], with the variables it captures made explicit. *)
Definition adjust (max_intensity factor color : R) : R :=
  if Rltb 0 color then max_intensity * float_pow (color * factor) gamma else 0.

Definition _wavelength_to_rgb (nm max_intensity : R) : rgb :=
  let '(r, g, b) := raw_rgb nm in
  let factor := factor nm in
  (adjust max_intensity factor r,
   adjust max_intensity factor g,
   adjust max_intensity factor b).

(** [max_intensity] defaults to [1.0]. *)
Definition _px_to_rgb (cal : calibration_t) (x max_intensity : R) : result rgb :=
  nm <- _px_to_nm cal x ;;
  Ok (_wavelength_to_rgb nm max_intensity).

(** ** Frames and sequences *)

(** A pixel holds its blue, green and red bytes (OpenCV order). *)
Definition pixel : Type := Z * Z * Z.

(** A frame is an array of shape [(height, width, 3)]. *)
Record frame : Type := mkFrame {
  height : Z;
  width : Z;
  rows : list (list pixel)
}.

(** The shape describes the data, as it does for every numpy array. *)
Definition frame_wf (f : frame) : Prop :=
  Z.of_nat (List.length (rows f)) = height f /\
  Forall (fun row => Z.of_nat (List.length row) = width f) (rows f).

(** [l[i]] for a Python sequence: negative indices count from the end,
    an index out of range raises. *)
Definition getitem {A : Type} (l : list A) (i : Z) : result A :=
  let n := Z.of_nat (List.length l) in
  let j := if (i <? 0)%Z then (i + n)%Z else i in
  if ((0 <=? j)%Z && (j <? n)%Z)%bool then
    match nth_error l (Z.to_nat j) with
    | Some a => Ok a
    | None => Err IndexError
    end
  else Err IndexError.

(** [range(n)]. *)
Definition range (n : Z) : list Z := map Z.of_nat (seq 0 (Z.to_nat n)).

(** [np.arange(start, stop, step)] on ints, for a positive [step]. *)
Definition arange (start stop step : Z) : list Z :=
  map (fun i => (start + Z.of_nat i * step)%Z)
      (seq 0 (Z.to_nat ((stop - start + step - 1) / step))).

(** [int(x)] on a float: truncation towards zero. *)
Definition py_int (x : R) : Z :=
  if Rle_dec 0 x then Int_part x else (- Int_part (- x))%Z.

(** ** The application object *)

Definition point : Type := Z * Z.

Inductive file_write : Type :=
| imwrite (filename : string) (img : frame)   (* [cv2.imwrite] *)
| savefig (filename : string).                (* [self.fig.savefig] *)

Record app : Type := mkApp {
  _current_frame : option frame;
  (* self.lc : LineCollection *)
  lc_segments : list (point * point);
  lc_color : list rgb;
  (* self.pc : PolyCollection *)
  pc_verts : list (point * point * point * point);
  pc_facecolor : list rgb;
  pc_edgecolor : list rgb;
  (* the major tick positions of self.ax.xaxis *)
  xaxis_ticks : list R;
  overlay_tk_img : option frame;
  status_lbl : string;
  (* effects on the collaborators, in the order they happen (newest first) *)
  draw_idle_calls : nat;        (* self.canvas.draw_idle() *)
  after_calls : list Z;         (* self.window.after(ms, self.update) *)
  files_written : list file_write
}.

Section Collaborators.

(** What OpenCV computes is taken as given: the luminance of one pixel
    ([cv2.COLOR_BGR2GRAY]) and the resampling of a frame ([cv2.resize]). *)
Variable bgr2gray : pixel -> Z.
Variable resize : frame -> Z * Z -> frame.

(** [cv2.cvtColor(frame, cv2.COLOR_BGR2GRAY)]; OpenCV rejects an empty image. *)
Definition cvtColor_BGR2GRAY (f : frame) : result (list (list Z)) :=
  if ((height f <=? 0)%Z || (width f <=? 0)%Z)%bool then Err cv2_error
  else Ok (map (map bgr2gray) (rows f)).

(** [cv2.cvtColor(frame, cv2.COLOR_BGR2RGB)]. *)
Definition cvtColor_BGR2RGB (f : frame) : frame :=
  mkFrame (height f) (width f)
          (map (map (fun p : pixel => let '(b, g, r) := p in (r, g, b))) (rows f)).

Definition _draw_spectrum (cal : calibration_t) (self : app) (f : frame) : result app :=
  let '(height, width) := (height f, width f) in
  (* Extract central line intensity *)
  let mid_y := (height / 2)%Z in
  gray <- cvtColor_BGR2GRAY f ;;
  intensity_line <- getitem gray mid_y ;;
  (* Update graph line *)
  colors <- mapM (fun px => _px_to_rgb cal (IZR px) 0.5) (range (width - 1)) ;;
  segments <- mapM (fun px =>
                      a <- getitem intensity_line px ;;
                      b <- getitem intensity_line (px + 1) ;;
                      Ok ((px, a), ((px + 1)%Z, b)))
                   (range (width - 1)) ;;
  (* Update the area under the segments *)
  colors' <- mapM (fun px => _px_to_rgb cal (IZR px) 1.0) (range (width - 1)) ;;
  vertices <- mapM (fun px =>
                      a <- getitem intensity_line px ;;
                      b <- getitem intensity_line (px + 1) ;;
                      Ok ((px, 0%Z), (px, a), ((px + 1)%Z, b), ((px + 1)%Z, 0%Z)))
                   (range (width - 1)) ;;
  Ok (mkApp (_current_frame self) segments colors vertices colors' colors'
            (xaxis_ticks self) (overlay_tk_img self) (status_lbl self)
            (draw_idle_calls self) (after_calls self) (files_written self)).

(** The size of the overlay widget is read from the window system. *)
Definition _draw_overlay (overlay_size : Z * Z) (self : app) (f : frame) : app :=
  let small_frame := resize f overlay_size in
  let rgb_frame := cvtColor_BGR2RGB small_frame in
  mkApp (_current_frame self) (lc_segments self) (lc_color self) (pc_verts self)
        (pc_facecolor self) (pc_edgecolor self) (xaxis_ticks self)
        (Some rgb_frame) (status_lbl self)
        (draw_idle_calls self) (after_calls self) (files_written self).

(** [self.vid.read()] returns [(True, frame)], here [Some frame], or
    [(False, None)], here [None]. *)
Definition update (cal : calibration_t) (overlay_size : Z * Z)
           (read : option frame) (self : app) : result app :=
  self <- match read with
          | Some f =>
              self <- _draw_spectrum cal self f ;;
              let self := _draw_overlay overlay_size self f in
              Ok (mkApp (Some f) (lc_segments self) (lc_color self) (pc_verts self)
                        (pc_facecolor self) (pc_edgecolor self) (xaxis_ticks self)
                        (overlay_tk_img self) (status_lbl self)
                        (* Redraw the canvas when ready *)
                        (S (draw_idle_calls self)) (after_calls self)
                        (files_written self))
          | None => Ok self
          end ;;
  (* Call this function again after 30 milliseconds *)
  Ok (mkApp (_current_frame self) (lc_segments self) (lc_color self) (pc_verts self)
            (pc_facecolor self) (pc_edgecolor self) (xaxis_ticks self)
            (overlay_tk_img self) (status_lbl self)
            (draw_idle_calls self) (30%Z :: after_calls self) (files_written self)).

End Collaborators.

(** [timestamp] is the formatted [datetime.datetime.now()]. *)
Definition _save_snapshot (timestamp : string) (self : app) : app :=
  match _current_frame self with
  | None => self
  | Some current =>
      let filename := ("spectrum_" ++ timestamp ++ ".png")%string in
      let graph := ("spectrum_" ++ timestamp ++ "_graph.png")%string in
      mkApp (_current_frame self) (lc_segments self) (lc_color self) (pc_verts self)
            (pc_facecolor self) (pc_edgecolor self) (xaxis_ticks self)
            (overlay_tk_img self)
            ("File spectrum_" ++ timestamp ++ ".png saved")%string
            (draw_idle_calls self) (after_calls self)
            (savefig graph :: imwrite filename current :: files_written self)
  end.

(** ** Construction *)

(** The major tick positions computed by [_set_ax_ticks]. *)
Definition _set_ax_ticks (cal : calibration_t) : result (list R) :=
  start <- _px_to_nm cal 0 ;;
  let start_nm := py_int start in
  stop <- _px_to_nm cal (IZR FRAME_WIDTH) ;;
  let end_nm := py_int stop in
  (* Create a list of 'round' nanometer values (e.g., 400, 450, 500...) *)
  let nm_ticks := arange ((start_nm / 50 + 1) * 50) end_nm 50 in
  (* Convert those nanometers back to pixel positions *)
  mapM (fun nm => _nm_to_px cal (IZR nm)) nm_ticks.

(** The part of [__init__] that does not only lay out widgets: the empty
    collections, the axis ticks (through [_set_ax_style]) and the status. *)
Definition __init__ (cal : calibration_t) : result app :=
  pixel_ticks <- _set_ax_ticks cal ;;
  Ok (mkApp None [] [] [] [] [] pixel_ticks None "Ready"%string 0%nat [] []).

(** The channels of a colour. *)
Definition red (c : rgb) : R := fst (fst c).
Definition green (c : rgb) : R := snd (fst c).
Definition blue (c : rgb) : R := snd c.

(** ** Tick labels and the polling loop *)



(** The calls of [update] that [run_forever] gives rise to: its own call and
    then one for each expiry of the timer that every [update] arms, each
    with what [self.vid.read()] returns at that moment.  An exception ends
    the polling, since the timer is armed on the last line of [update]. *)
Fixpoint run_forever (bgr2gray : pixel -> Z) (resize : frame -> Z * Z -> frame)
         (cal : calibration_t) (overlay_size : Z * Z)
         (reads : list (option frame)) (self : app) : result app :=
  match reads with
  | [] => Ok self
  | read :: reads' =>
      self <- update bgr2gray resize cal overlay_size read self ;;
      run_forever bgr2gray resize cal overlay_size reads' self
  end.

(** ** Vocabulary for the properties of the loop *)

(** A read is usable when it yields no frame or a rectangular, non-empty one. *)
Definition usable_read (read : option frame) : Prop :=
  match read with
  | Some f => frame_wf f /\ (1 <= height f)%Z /\ (1 <= width f)%Z
  | None => True
  end.

(** The most recent frame among [reads], or [last] when none yields one. *)
Definition latest_frame (reads : list (option frame)) (last : option frame)
  : option frame :=
  fold_left (fun last read => match read with Some f => Some f | None => last end)
            reads last.

(** The number of reads that yield a frame. *)
Definition frames_read (reads : list (option frame)) : nat :=
  List.length (filter (fun read => match read with Some _ => true | None => false end)
                      reads).

(** The collections handed to matplotlib agree in length: one colour per
    segment, one quadrilateral per segment, one face and edge colour per
    quadrilateral. *)
Definition display_consistent (self : app) : Prop :=
  List.length (lc_color self) = List.length (lc_segments self) /\
  List.length (pc_verts self) = List.length (lc_segments self) /\
  List.length (pc_facecolor self) = List.length (pc_verts self) /\
  pc_edgecolor self = pc_facecolor self.

End SpectrometerApp.

(** ** The calibration in binary64

    The two conversions once more, on the floats Python computes with, to
    see what rounding does at the shipped calibration. *)
Module Binary64.

Local Open Scope float_scope.

Definition truediv (a b : float) : result float :=
  if (b =? 0) then Err ZeroDivisionError else Ok (a / b).

Definition calibration : (float * float) * (float * float) :=
  ((305, 405), (707, 631)).

Definition _nm_to_px (cal : (float * float) * (float * float)) (nm : float)
  : result float :=
  let '(px0, px1) := (fst (fst cal), fst (snd cal)) in
  let '(nm0, nm1) := (snd (fst cal), snd (snd cal)) in
  let nm_range := abs (nm0 - nm1) in
  let px_range := abs (px0 - px1) in
  pxpernm <- truediv px_range nm_range ;;
  Ok (px0 + (nm - nm0) * pxpernm).

Definition _px_to_nm (cal : (float * float) * (float * float)) (x : float)
  : result float :=
  let '(px0, px1) := (fst (fst cal), fst (snd cal)) in
  let '(nm0, nm1) := (snd (fst cal), snd (snd cal)) in
  let nm_range := abs (nm0 - nm1) in
  let px_range := abs (px0 - px1) in
  nmperpx <- truediv nm_range px_range ;;
  Ok (nm0 + (x - px0) * nmperpx).

End Binary64.

Import SpectrometerApp.

(** ** Properties of the calibration model *)

Section Calibration.

Variables px0 nm0 px1 nm1 : R.

Let cal : calibration_t := ((px0, nm0), (px1, nm1)).

Lemma Rabs_diff_nonzero (a b : R) : a <> b -> Rabs (a - b) <> 0.
Proof. intro H. apply Rabs_no_R0. lra. Qed.

Lemma Rabs_diff_pos (a b : R) : a <> b -> 0 < Rabs (a - b).
Proof. intro H. apply Rabs_pos_lt. lra. Qed.

Lemma truediv_Ok (a b : R) : b <> 0 -> truediv a b = Ok (a / b).
Proof.
  intro H. unfold truediv. destruct (Req_dec_T b 0); [contradiction | reflexivity].
Qed.

Lemma truediv_zero (a : R) : truediv a 0 = Err ZeroDivisionError.
Proof.
  unfold truediv. destruct (Req_dec_T 0 0); [reflexivity | exfalso; auto].
Qed.

Lemma px_to_nm_eq (x : R) :
  px0 <> px1 ->
  _px_to_nm cal x = Ok (nm0 + (x - px0) * (Rabs (nm0 - nm1) / Rabs (px0 - px1))).
Proof.
  intro Hpx. unfold _px_to_nm, cal; simpl.
  rewrite truediv_Ok by (apply Rabs_diff_nonzero; assumption).
  reflexivity.
Qed.

Lemma nm_to_px_eq (nm : R) :
  nm0 <> nm1 ->
  _nm_to_px cal nm = Ok (px0 + (nm - nm0) * (Rabs (px0 - px1) / Rabs (nm0 - nm1))).
Proof.
  intro Hnm. unfold _nm_to_px, cal; simpl.
  rewrite truediv_Ok by (apply Rabs_diff_nonzero; assumption).
  reflexivity.
Qed.

(** C1: with distinct pixel columns and distinct wavelengths, converting a
    pixel column to a wavelength and back gives the column again, for every
    real [x]; neither conversion raises. *)
Theorem nm_to_px_px_to_nm_round_trip (x : R) :
  px0 <> px1 -> nm0 <> nm1 ->
  (nm <- _px_to_nm cal x ;; _nm_to_px cal nm) = Ok x.
Proof.
  intros Hpx Hnm.
  rewrite px_to_nm_eq by assumption. cbn [bind].
  rewrite nm_to_px_eq by assumption. f_equal.
  pose proof (Rabs_diff_nonzero _ _ Hpx).
  pose proof (Rabs_diff_nonzero _ _ Hnm).
  field. split; assumption.
Qed.

(** The slope of [_px_to_nm] is positive whatever the order of the pairs. *)
Lemma nmperpx_pos :
  px0 <> px1 -> nm0 <> nm1 -> 0 < Rabs (nm0 - nm1) / Rabs (px0 - px1).
Proof.
  intros Hpx Hnm. apply Rdiv_lt_0_compat; apply Rabs_diff_pos; assumption.
Qed.

(** C10: with distinct pixel columns and distinct wavelengths, [_px_to_nm]
    is strictly increasing in [x]: it returns at any two columns [x < y],
    and the wavelength at [x] is below the one at [y]. *)
Theorem px_to_nm_strictly_increasing (x y : R) :
  px0 <> px1 -> nm0 <> nm1 -> x < y ->
  exists a b, _px_to_nm cal x = Ok a /\ _px_to_nm cal y = Ok b /\ a < b.
Proof.
  intros Hpx Hnm Hxy.
  eexists; eexists. repeat split; try (apply px_to_nm_eq; assumption).
  pose proof (nmperpx_pos Hpx Hnm) as Hs.
  assert (Hm : (x - px0) * (Rabs (nm0 - nm1) / Rabs (px0 - px1))
               < (y - px0) * (Rabs (nm0 - nm1) / Rabs (px0 - px1))).
  { apply Rmult_lt_compat_r; [exact Hs | lra]. }
  lra.
Qed.

(** The scale factor when both axes run the same way, and when they do not. *)
Lemma nmperpx_same_direction :
  px0 <> px1 -> 0 < (px1 - px0) * (nm1 - nm0) ->
  (px1 - px0) * (Rabs (nm0 - nm1) / Rabs (px0 - px1)) = nm1 - nm0.
Proof.
  intros Hpx Hdir.
  destruct (Rlt_le_dec px0 px1) as [Hp | Hp].
  - assert (Hn : nm0 < nm1) by nra.
    rewrite (Rabs_left (nm0 - nm1)), (Rabs_left (px0 - px1)) by lra.
    field. lra.
  - assert (Hn : nm1 < nm0) by nra.
    rewrite (Rabs_right (nm0 - nm1)), (Rabs_right (px0 - px1)) by lra.
    field. lra.
Qed.

Lemma nmperpx_opposite_direction :
  px0 <> px1 -> (px1 - px0) * (nm1 - nm0) <= 0 ->
  (px1 - px0) * (Rabs (nm0 - nm1) / Rabs (px0 - px1)) = nm0 - nm1.
Proof.
  intros Hpx Hdir.
  destruct (Rlt_le_dec px0 px1) as [Hp | Hp].
  - assert (Hn : nm1 <= nm0) by nra.
    rewrite (Rabs_right (nm0 - nm1)), (Rabs_left (px0 - px1)) by lra.
    field. lra.
  - assert (Hn : nm0 <= nm1) by nra.
    rewrite (Rabs_left1 (nm0 - nm1)), (Rabs_right (px0 - px1)) by lra.
    field. lra.
Qed.

(** C3 (amended): with distinct pixel columns and distinct wavelengths,
    [_px_to_nm] maps [px0] to [nm0]; it maps [px1] to [nm1] when pixel and
    wavelength grow in the same direction between the two pairs, and to the
    mirror image [2 * nm0 - nm1] when they grow in opposite directions. *)
Theorem px_to_nm_calibration_points :
  px0 <> px1 -> nm0 <> nm1 ->
  _px_to_nm cal px0 = Ok nm0 /\
  _px_to_nm cal px1 =
    Ok (if Rltb 0 ((px1 - px0) * (nm1 - nm0)) then nm1 else 2 * nm0 - nm1).
Proof.
  intros Hpx Hnm. rewrite !px_to_nm_eq by assumption. split; f_equal.
  - lra.
  - unfold Rltb. destruct (Rlt_dec 0 ((px1 - px0) * (nm1 - nm0))) as [Hdir | Hdir].
    + rewrite nmperpx_same_direction by assumption. lra.
    + rewrite nmperpx_opposite_direction by (assumption || lra). lra.
Qed.

End Calibration.

(** ** The shipped calibration *)

Lemma Rabs_nm_range : Rabs (405 - 631) = 226.
Proof. rewrite Rabs_left; lra. Qed.

Lemma Rabs_px_range : Rabs (305 - 707) = 402.
Proof. rewrite Rabs_left; lra. Qed.

(** C2: with the pairs (305, 405) and (707, 631), [_px_to_nm] computes
    [nm0 + (x - px0) * (|nm1 - nm0| / |px1 - px0|)], which is exactly 405 at
    column 305 and exactly 631 at column 707. *)
Theorem px_to_nm_shipped_calibration :
  _px_to_nm calibration 305 = Ok 405 /\
  _px_to_nm calibration 707 = Ok 631 /\
  forall x : R,
    _px_to_nm calibration x
    = Ok (405 + (x - 305) * (Rabs (631 - 405) / Rabs (707 - 305))).
Proof.
  unfold calibration.
  repeat split; intros; rewrite px_to_nm_eq by lra; f_equal;
    rewrite ?Rabs_nm_range, ?Rabs_px_range.
  - lra.
  - field.
  - rewrite (Rabs_right (631 - 405)) by lra.
    rewrite (Rabs_right (707 - 305)) by lra. field.
Qed.

(** In binary64 too, the two calibration columns give 405 and 631 with no
    rounding error. *)
Lemma px_to_nm_binary64_calibration_points :
  Binary64._px_to_nm Binary64.calibration 305 = Ok 405%float /\
  Binary64._px_to_nm Binary64.calibration 707 = Ok 631%float.
Proof. split; reflexivity. Qed.

(** In binary64 the round trip is exact only up to rounding: column 3 comes
    back as 0x1.7ffffffffff8p+1 (2.9999999999999432), less than 2^-40 away
    from 3. *)
Lemma round_trip_binary64_column_3 :
  (nm <- Binary64._px_to_nm Binary64.calibration 3 ;;
   Binary64._nm_to_px Binary64.calibration nm) = Ok 0x1.7ffffffffff8p+1%float /\
  (PrimFloat.abs (0x1.7ffffffffff8p+1 - 3) <? 0x1p-40)%float = true.
Proof. split; reflexivity. Qed.

Lemma nm_to_px_px_to_nm_round_trip_witness :
  (nm <- _px_to_nm calibration 100 ;; _nm_to_px calibration nm) = Ok 100.
Proof.
  apply (nm_to_px_px_to_nm_round_trip 305 405 707 631 100); lra.
Defined.

Lemma px_to_nm_strictly_increasing_witness :
  exists a b, _px_to_nm calibration 0 = Ok a /\
              _px_to_nm calibration 1 = Ok b /\ a < b.
Proof.
  apply (px_to_nm_strictly_increasing 305 405 707 631 0 1); lra.
Defined.

(** C3, as stated, fails when pixel and wavelength grow in opposite
    directions: with the pairs (305, 631) and (707, 405) the second column
    is sent to 857, not to its wavelength 405. *)
Lemma px_to_nm_opposite_axes_counterexample :
  let cal : calibration_t := ((305, 631), (707, 405)) in
  fst (fst cal) <> fst (snd cal) /\ snd (fst cal) <> snd (snd cal) /\
  _px_to_nm cal (fst (snd cal)) = Ok 857 /\
  _px_to_nm cal (fst (snd cal)) <> Ok (snd (snd cal)).
Proof.
  assert (H : _px_to_nm ((305, 631), (707, 405)) 707 = Ok 857).
  { rewrite px_to_nm_eq by lra. f_equal.
    rewrite (Rabs_right (631 - 405)) by lra. rewrite Rabs_px_range. field. }
  cbn [fst snd]. repeat split; try lra; try exact H.
  rewrite H. intro E. injection E. lra.
Qed.

Lemma px_to_nm_calibration_points_witness :
  _px_to_nm calibration 305 = Ok 405 /\
  _px_to_nm calibration 707 =
    Ok (if Rltb 0 ((707 - 305) * (631 - 405)) then 631 else 2 * 405 - 631).
Proof.
  apply (px_to_nm_calibration_points 305 405 707 631); lra.
Defined.

(** ** The colour mapper *)

Lemma factor_380 : factor 380 = 0.3.
Proof. unfold factor. real_cases. Qed.

Lemma factor_700 : factor 700 = 1.
Proof. unfold factor. real_cases. Qed.

Lemma factor_701 : factor 701 = 0.99125.
Proof. unfold factor. real_cases. Qed.

Lemma factor_780 : factor 780 = 0.3.
Proof. unfold factor. real_cases. Qed.

(** C5, as stated, fails at the breakpoint 701: the specified ramp starts
    there at 1.0, the code's taper is 0.99125. *)
Lemma factor_at_701_counterexample :
  factor_spec 701 = 1 /\ factor 701 = 0.99125 /\ factor 701 <> factor_spec 701.
Proof.
  assert (Hs : factor_spec 701 = 1) by (unfold factor_spec, ramp; real_cases).
  rewrite Hs, factor_701. repeat split; lra.
Qed.

(** C5 (amended): the taper is the ramp from 0.3 at 380 to 1.0 at 420 over
    [380, 420), the constant 1.0 over [420, 701), the ramp from 0.99125 at 701
    down to 0.3 at 780 over [701, 780] (the line that is 1.0 at 700), and 0
    outside [380, 780]. *)
Theorem factor_piecewise (nm : R) :
  (380 <= nm < 420 -> factor nm = ramp 380 0.3 420 1.0 nm) /\
  (420 <= nm < 701 -> factor nm = 1.0) /\
  (701 <= nm <= 780 ->
     factor nm = ramp 701 0.99125 780 0.3 nm /\
     factor nm = ramp 700 1.0 780 0.3 nm) /\
  (nm < 380 \/ 780 < nm -> factor nm = 0).
Proof.
  unfold factor, ramp. repeat split; intros; real_cases.
Qed.

Lemma factor_piecewise_witness :
  factor 400 = ramp 380 0.3 420 1.0 400 /\
  factor 500 = 1.0 /\
  (factor 740 = ramp 701 0.99125 780 0.3 740 /\
   factor 740 = ramp 700 1.0 780 0.3 740) /\
  factor 900 = 0.
Proof.
  repeat split.
  - apply (factor_piecewise 400); lra.
  - apply (factor_piecewise 500); lra.
  - apply (factor_piecewise 740); lra.
  - apply (factor_piecewise 740); lra.
  - apply (factor_piecewise 900); lra.
Defined.

(** [adjust] is linear in [max_intensity]. *)
Lemma adjust_linear (m f c : R) : adjust m f c = m * adjust 1.0 f c.
Proof. unfold adjust. destruct (Rltb 0 c); lra. Qed.

Lemma wavelength_to_rgb_linear (nm m : R) :
  _wavelength_to_rgb nm m =
  (m * fst (fst (_wavelength_to_rgb nm 1.0)),
   m * snd (fst (_wavelength_to_rgb nm 1.0)),
   m * snd (_wavelength_to_rgb nm 1.0)).
Proof.
  unfold _wavelength_to_rgb. destruct (raw_rgb nm) as [[r g] b]. cbn [fst snd].
  rewrite (adjust_linear m _ r), (adjust_linear m _ g), (adjust_linear m _ b).
  reflexivity.
Qed.

(** C6: at every wavelength, each channel of the colour at
    [max_intensity = 0.5] is half of the same channel at
    [max_intensity = 1.0]. *)
Theorem wavelength_to_rgb_half_intensity (nm : R) :
  _wavelength_to_rgb nm 0.5 =
  (fst (fst (_wavelength_to_rgb nm 1.0)) / 2,
   snd (fst (_wavelength_to_rgb nm 1.0)) / 2,
   snd (_wavelength_to_rgb nm 1.0) / 2).
Proof.
  rewrite (wavelength_to_rgb_linear nm 0.5).
  f_equal; [f_equal |]; lra.
Qed.

(** A raw channel is positive only where the taper is: [float_pow] is never
    asked for the power of a base that is not positive. *)
Lemma adjust_base_positive (nm : R) :
  let '(r, g, b) := raw_rgb nm in
  (0 < r -> 0 < r * factor nm) /\
  (0 < g -> 0 < g * factor nm) /\
  (0 < b -> 0 < b * factor nm).
Proof.
  assert (Hf : 380 <= nm <= 780 -> 0 < factor nm).
  { intros H. unfold factor. real_cases. }
  unfold raw_rgb. real_cases;
    repeat split; intros Hc; try lra;
    apply Rmult_lt_0_compat; try assumption; apply Hf; lra.
Qed.

(** ** Sequences *)

Lemma mapM_map {A B : Type} (f : A -> result B) (g : A -> B) (l : list A) :
  (forall a, In a l -> f a = Ok (g a)) -> mapM f l = Ok (map g l).
Proof.
  induction l as [| a l IH]; intros H; cbn [mapM map].
  - reflexivity.
  - rewrite (H a) by (left; reflexivity). cbn [bind].
    rewrite IH by (intros; apply H; right; assumption). reflexivity.
Qed.

Lemma mapM_raises {A B : Type} (f : A -> result B) (e : exn) (a : A) (l : list A) :
  f a = Err e -> mapM f (a :: l) = Err e.
Proof. intros H. cbn [mapM]. rewrite H. reflexivity. Qed.

Lemma getitem_nth {A : Type} (l : list A) (i : Z) (d : A) :
  (0 <= i < Z.of_nat (List.length l))%Z ->
  getitem l i = Ok (nth (Z.to_nat i) l d).
Proof.
  intros [Hlo Hhi]. unfold getitem.
  destruct (Z.ltb_spec i 0); [lia |].
  destruct (Z.leb_spec 0 i); [| lia].
  destruct (Z.ltb_spec i (Z.of_nat (List.length l))); [| lia].
  cbn [andb]. rewrite (nth_error_nth' l d) by lia. reflexivity.
Qed.

Lemma in_range (x n : Z) : In x (range n) <-> (0 <= x < n)%Z.
Proof.
  unfold range. rewrite in_map_iff. split.
  - intros [k [<- Hk]]. apply in_seq in Hk. lia.
  - intros H. exists (Z.to_nat x). split; [lia |]. apply in_seq. lia.
Qed.

Lemma length_range (n : Z) : Z.of_nat (List.length (range n)) = Z.max 0 n.
Proof. unfold range. rewrite length_map, length_seq. lia. Qed.

Lemma arange_empty (start stop step : Z) :
  (0 < step)%Z -> (stop <= start)%Z -> arange start stop step = [].
Proof.
  intros Hstep Hle. unfold arange.
  replace (Z.to_nat ((stop - start + step - 1) / step)) with 0%nat; [reflexivity |].
  assert ((stop - start + step - 1) / step <= 0)%Z; [| lia].
  apply Z.lt_succ_r. apply Z.div_lt_upper_bound; lia.
Qed.

(** ** Missing frames *)

(** C8: a snapshot requested while no frame has been captured changes
    nothing: no file is written and the status message stays as it is. *)
Theorem save_snapshot_without_frame (timestamp : string) (self : app) :
  _current_frame self = None ->
  _save_snapshot timestamp self = self /\
  files_written (_save_snapshot timestamp self) = files_written self /\
  status_lbl (_save_snapshot timestamp self) = status_lbl self.
Proof.
  intros H. unfold _save_snapshot. rewrite H. repeat split.
Qed.

Lemma save_snapshot_without_frame_witness :
  let self := mkApp None [] [] [] [] [] [] None "Ready" 0 [] [] in
  _save_snapshot "20260214_101500" self = self /\
  files_written (_save_snapshot "20260214_101500" self) = files_written self /\
  status_lbl (_save_snapshot "20260214_101500" self) = status_lbl self.
Proof.
  apply (save_snapshot_without_frame "20260214_101500"
           (mkApp None [] [] [] [] [] [] None "Ready" 0 [] [])).
  reflexivity.
Defined.

(** With a frame the snapshot writes two files and reports the first. *)
Lemma save_snapshot_with_frame (timestamp : string) (self : app) (f : frame) :
  _current_frame self = Some f ->
  files_written (_save_snapshot timestamp self)
  = savefig ("spectrum_" ++ timestamp ++ "_graph.png")
      :: imwrite ("spectrum_" ++ timestamp ++ ".png") f
      :: files_written self.
Proof. intros H. unfold _save_snapshot. rewrite H. reflexivity. Qed.

(** C9: a tick on which the capture device yields no frame raises nothing
    and leaves the line segments, the fill polygons, their colours, the
    overlay thumbnail and the stored last frame as they were; no redraw is
    asked for, and the next tick is scheduled. *)
Theorem update_without_frame
        (bgr2gray : pixel -> Z) (resize : frame -> Z * Z -> frame)
        (cal : calibration_t) (overlay_size : Z * Z) (self : app) :
  exists self' : app,
    update bgr2gray resize cal overlay_size None self = Ok self' /\
    lc_segments self' = lc_segments self /\
    lc_color self' = lc_color self /\
    pc_verts self' = pc_verts self /\
    pc_facecolor self' = pc_facecolor self /\
    pc_edgecolor self' = pc_edgecolor self /\
    overlay_tk_img self' = overlay_tk_img self /\
    _current_frame self' = _current_frame self /\
    draw_idle_calls self' = draw_idle_calls self /\
    status_lbl self' = status_lbl self /\
    files_written self' = files_written self /\
    after_calls self' = 30%Z :: after_calls self.
Proof.
  eexists. split; [reflexivity |]. cbn. repeat split.
Qed.

(** ** Degenerate calibrations *)

Section Degenerate.

Variables px0 nm0 px1 nm1 : R.

Let cal : calibration_t := ((px0, nm0), (px1, nm1)).

Lemma px_to_nm_equal_pixels (x : R) :
  px0 = px1 -> _px_to_nm cal x = Err ZeroDivisionError.
Proof.
  intros E. unfold _px_to_nm, cal; cbn [fst snd].
  replace (Rabs (px0 - px1)) with 0.
  - rewrite truediv_zero. reflexivity.
  - subst px1. rewrite Rminus_diag, Rabs_R0. reflexivity.
Qed.

Lemma nm_to_px_equal_wavelengths (nm : R) :
  nm0 = nm1 -> _nm_to_px cal nm = Err ZeroDivisionError.
Proof.
  intros E. unfold _nm_to_px, cal; cbn [fst snd].
  replace (Rabs (nm0 - nm1)) with 0.
  - rewrite truediv_zero. reflexivity.
  - subst nm1. rewrite Rminus_diag, Rabs_R0. reflexivity.
Qed.

Lemma px_to_nm_equal_wavelengths (x : R) :
  px0 <> px1 -> nm0 = nm1 -> _px_to_nm cal x = Ok nm0.
Proof.
  intros Hpx E. unfold cal. rewrite px_to_nm_eq by assumption. f_equal.
  subst nm1. rewrite Rminus_diag, Rabs_R0.
  pose proof (Rabs_diff_nonzero _ _ Hpx). field. assumption.
Qed.

Lemma set_ax_ticks_equal_wavelengths :
  px0 <> px1 -> nm0 = nm1 -> _set_ax_ticks cal = Ok [].
Proof.
  intros Hpx E. unfold _set_ax_ticks.
  rewrite !px_to_nm_equal_wavelengths by assumption. cbn [bind].
  rewrite arange_empty; [reflexivity | lia |].
  pose proof (Z.mod_pos_bound (py_int nm0) 50 ltac:(lia)).
  pose proof (Z.div_mod (py_int nm0) 50 ltac:(lia)). lia.
Qed.

(** C4 (amended): no validation guards the calibration.  With equal pixel
    columns construction fails with the [ZeroDivisionError] that [_px_to_nm]
    raises (at construction, when the ticks are laid out, and at every later
    call); with distinct pixel columns and equal wavelengths construction
    succeeds with no tick at all, and it is [_nm_to_px] that raises
    [ZeroDivisionError] when called. *)
Theorem init_degenerate_calibration :
  (px0 = px1 ->
     __init__ cal = Err ZeroDivisionError /\
     forall x, _px_to_nm cal x = Err ZeroDivisionError) /\
  (px0 <> px1 -> nm0 = nm1 ->
     __init__ cal = Ok (mkApp None [] [] [] [] [] [] None "Ready" 0 [] []) /\
     forall nm, _nm_to_px cal nm = Err ZeroDivisionError).
Proof.
  split.
  - intros E. split; [| intros x; apply px_to_nm_equal_pixels; assumption].
    unfold __init__, _set_ax_ticks.
    rewrite px_to_nm_equal_pixels by assumption. reflexivity.
  - intros Hpx E. split; [| intros nm; apply nm_to_px_equal_wavelengths; assumption].
    unfold __init__. rewrite set_ax_ticks_equal_wavelengths by assumption.
    reflexivity.
Qed.

End Degenerate.

(** C4, as stated, fails for equal wavelengths: with the pairs (305, 405)
    and (707, 405) construction returns an application object. *)
Lemma init_equal_wavelengths_counterexample :
  let cal : calibration_t := ((305, 405), (707, 405)) in
  snd (fst cal) = snd (snd cal) /\
  __init__ cal = Ok (mkApp None [] [] [] [] [] [] None "Ready" 0 [] []).
Proof.
  cbn zeta. split; [reflexivity |].
  unfold __init__. rewrite set_ax_ticks_equal_wavelengths by (lra || reflexivity).
  reflexivity.
Qed.

Lemma init_degenerate_calibration_witness :
  (__init__ ((305, 405), (305, 631)) = Err ZeroDivisionError /\
   forall x, _px_to_nm ((305, 405), (305, 631)) x = Err ZeroDivisionError) /\
  (__init__ ((305, 405), (707, 405))
   = Ok (mkApp None [] [] [] [] [] [] None "Ready" 0 [] []) /\
   forall nm, _nm_to_px ((305, 405), (707, 405)) nm = Err ZeroDivisionError).
Proof.
  split.
  - apply (init_degenerate_calibration 305 405 305 631). reflexivity.
  - apply (init_degenerate_calibration 305 405 707 405); [lra | reflexivity].
Defined.

(** ** The spectrum extractor *)

Section Extractor.

Variable bgr2gray : pixel -> Z.
Variables px0 nm0 px1 nm1 : R.

Let cal : calibration_t := ((px0, nm0), (px1, nm1)).

(** The wavelength of column [x]. *)
Let nm_of (x : Z) : R :=
  nm0 + (IZR x - px0) * (Rabs (nm0 - nm1) / Rabs (px0 - px1)).

Lemma px_to_rgb_eq (x : Z) (max_intensity : R) :
  px0 <> px1 ->
  _px_to_rgb cal (IZR x) max_intensity = Ok (_wavelength_to_rgb (nm_of x) max_intensity).
Proof.
  intros Hpx. unfold _px_to_rgb, cal. rewrite px_to_nm_eq by assumption. reflexivity.
Qed.

Lemma cvtColor_BGR2GRAY_nonempty (f : frame) :
  (1 <= height f)%Z -> (1 <= width f)%Z ->
  cvtColor_BGR2GRAY bgr2gray f = Ok (map (map bgr2gray) (rows f)).
Proof.
  intros Hh Hw. unfold cvtColor_BGR2GRAY.
  destruct (Z.leb_spec (height f) 0); [lia |].
  destruct (Z.leb_spec (width f) 0); [lia |]. reflexivity.
Qed.


(** The middle row of a frame exists and is as wide as the frame. *)
Lemma middle_row (f : frame) :
  frame_wf f -> (1 <= height f)%Z ->
  exists row,
    nth_error (rows f) (Z.to_nat (height f / 2)) = Some row /\
    Z.of_nat (List.length row) = width f.
Proof.
  intros [Hlen Hrows] Hh.
  assert (Hmid : (0 <= height f / 2 < height f)%Z).
  { split; [apply Z.div_pos; lia | apply Z.div_lt_upper_bound; lia]. }
  destruct (nth_error (rows f) (Z.to_nat (height f / 2))) as [row |] eqn:E.
  - exists row. split; [reflexivity |].
    rewrite Forall_forall in Hrows. apply Hrows. eapply nth_error_In; eassumption.
  - apply nth_error_None in E. lia.
Qed.

(** C7: from a frame of height [h >= 1] and width [w >= 1] the extractor
    takes the grayscale of row [h // 2] as the intensity profile ([w]
    values), and hands over [w - 1] line segments, the one of column [x]
    running from [(x, intensity[x])] to [(x+1, intensity[x+1])] and coloured
    with [max_intensity = 0.5], and [w - 1] quadrilaterals from the baseline
    up to the same two intensities, filled and edged with
    [max_intensity = 1.0]. *)
Theorem draw_spectrum_geometry (self : app) (f : frame) :
  frame_wf f -> (1 <= height f)%Z -> (1 <= width f)%Z -> px0 <> px1 ->
  exists (row : list pixel) (self' : app),
    nth_error (rows f) (Z.to_nat (height f / 2)) = Some row /\
    Z.of_nat (List.length (map bgr2gray row)) = width f /\
    _draw_spectrum bgr2gray cal self f = Ok self' /\
    let intensity x := nth (Z.to_nat x) (map bgr2gray row) 0%Z in
    lc_segments self'
    = map (fun x => ((x, intensity x), ((x + 1)%Z, intensity (x + 1)%Z)))
          (range (width f - 1)) /\
    lc_color self'
    = map (fun x => _wavelength_to_rgb (nm_of x) 0.5) (range (width f - 1)) /\
    pc_verts self'
    = map (fun x => ((x, 0%Z), (x, intensity x),
                     ((x + 1)%Z, intensity (x + 1)%Z), ((x + 1)%Z, 0%Z)))
          (range (width f - 1)) /\
    pc_facecolor self'
    = map (fun x => _wavelength_to_rgb (nm_of x) 1.0) (range (width f - 1)) /\
    pc_edgecolor self' = pc_facecolor self' /\
    Z.of_nat (List.length (lc_segments self')) = (width f - 1)%Z /\
    Z.of_nat (List.length (pc_verts self')) = (width f - 1)%Z.
Proof.
  intros Hwf Hh Hw Hpx.
  destruct (middle_row f Hwf Hh) as [row [Hrow Hlen]].
  assert (Hgray : Z.of_nat (List.length (map bgr2gray row)) = width f)
    by (rewrite length_map; exact Hlen).
  exists row. eexists. split; [exact Hrow |]. split; [exact Hgray |].
  assert (Hmid : (0 <= height f / 2 < Z.of_nat (List.length (map (map bgr2gray) (rows f))))%Z).
  { rewrite length_map. destruct Hwf as [-> _].
    split; [apply Z.div_pos; lia | apply Z.div_lt_upper_bound; lia]. }
  assert (Hline : getitem (map (map bgr2gray) (rows f)) (height f / 2)
                  = Ok (map bgr2gray row)).
  { rewrite (getitem_nth _ _ [] Hmid). f_equal.
    apply nth_error_nth. rewrite nth_error_map, Hrow. reflexivity. }
  assert (Hget : forall x, In x (range (width f - 1)) ->
            getitem (map bgr2gray row) x
            = Ok (nth (Z.to_nat x) (map bgr2gray row) 0%Z) /\
            getitem (map bgr2gray row) (x + 1)
            = Ok (nth (Z.to_nat (x + 1)) (map bgr2gray row) 0%Z)).
  { intros x Hx. apply in_range in Hx. split; apply getitem_nth; lia. }
  unfold _draw_spectrum.
  rewrite cvtColor_BGR2GRAY_nonempty by assumption. cbn [bind].
  rewrite Hline. cbn [bind].
  rewrite (mapM_map _ (fun x => _wavelength_to_rgb (nm_of x) 0.5))
    by (intros; apply px_to_rgb_eq; assumption).
  cbn [bind].
  rewrite (mapM_map _ (fun x => ((x, nth (Z.to_nat x) (map bgr2gray row) 0%Z),
                                 ((x + 1)%Z,
                                  nth (Z.to_nat (x + 1)) (map bgr2gray row) 0%Z)))).
  2:{ intros x Hx. destruct (Hget x Hx) as [-> ->]. reflexivity. }
  cbn [bind].
  rewrite (mapM_map _ (fun x => _wavelength_to_rgb (nm_of x) 1.0))
    by (intros; apply px_to_rgb_eq; assumption).
  cbn [bind].
  rewrite (mapM_map _ (fun x => ((x, 0%Z),
                                 (x, nth (Z.to_nat x) (map bgr2gray row) 0%Z),
                                 ((x + 1)%Z,
                                  nth (Z.to_nat (x + 1)) (map bgr2gray row) 0%Z),
                                 ((x + 1)%Z, 0%Z)))).
  2:{ intros x Hx. destruct (Hget x Hx) as [-> ->]. reflexivity. }
  cbn [bind]. split; [reflexivity |].
  cbn [lc_segments lc_color pc_verts pc_facecolor pc_edgecolor].
  repeat split; rewrite length_map, length_range; lia.
Qed.

End Extractor.


(** A frame of three rows whose middle row has the grey levels 0, 64, 128
    and 255, under the shipped calibration and OpenCV's 8-bit luminance. *)
Lemma draw_spectrum_geometry_witness :
  let gray : pixel -> Z :=
    fun p => let '(b, g, r) := p in
             ((b * 1868 + g * 9617 + r * 4899 + 8192) / 16384)%Z in
  let grey (v : Z) : pixel := (v, v, v) in
  let f := mkFrame 3 4 [ [grey 7; grey 7; grey 7; grey 7];
                         [grey 0; grey 64; grey 128; grey 255];
                         [grey 9; grey 9; grey 9; grey 9] ]%Z in
  let self := mkApp None [] [] [] [] [] [] None "Ready" 0 [] [] in
  exists self' : app,
    _draw_spectrum gray calibration self f = Ok self' /\
    lc_segments self'
    = [ ((0, 0), (1, 64)); ((1, 64), (2, 128)); ((2, 128), (3, 255)) ]%Z /\
    pc_verts self'
    = [ ((0, 0), (0, 0), (1, 64), (1, 0));
        ((1, 0), (1, 64), (2, 128), (2, 0));
        ((2, 0), (2, 128), (3, 255), (3, 0)) ]%Z /\
    List.length (lc_color self') = 3%nat /\
    pc_edgecolor self' = pc_facecolor self'.
Proof.
  intros gray grey f self.
  destruct (draw_spectrum_geometry gray 305 405 707 631 self f)
    as [row [self' [Hrow [_ [Hrun [Hseg [Hcol [Hverts [_ [Hedge _]]]]]]]]]].
  - split; [reflexivity | repeat constructor].
  - cbn. lia.
  - cbn. lia.
  - lra.
  - exists self'. split; [exact Hrun |].
    assert (E : row = [grey 0; grey 64; grey 128; grey 255]%Z)
      by (cbn in Hrow; injection Hrow as <-; reflexivity).
    subst row. repeat split.
    + rewrite Hseg. reflexivity.
    + rewrite Hverts. reflexivity.
    + rewrite Hcol. reflexivity.
    + exact Hedge.
Defined.

(** ** Construction with the shipped calibration *)





(** ** More about the calibration *)

Section CalibrationLaws.

Variables px0 nm0 px1 nm1 : R.

Let cal : calibration_t := ((px0, nm0), (px1, nm1)).
Let swapped : calibration_t := ((px1, nm1), (px0, nm0)).

(** X1: with distinct pixel columns and distinct wavelengths, converting a
    wavelength to a pixel column and back gives the wavelength again;
    neither conversion raises. *)
Theorem px_to_nm_nm_to_px_round_trip (nm : R) :
  px0 <> px1 -> nm0 <> nm1 ->
  (x <- _nm_to_px cal nm ;; _px_to_nm cal x) = Ok nm.
Proof.
  intros Hpx Hnm. unfold cal.
  rewrite nm_to_px_eq by assumption. cbn [bind].
  rewrite px_to_nm_eq by assumption. f_equal.
  pose proof (Rabs_diff_nonzero _ _ Hpx).
  pose proof (Rabs_diff_nonzero _ _ Hnm).
  field. split; assumption.
Qed.



(** X3: when pixel and wavelength grow in the same direction between the
    two pairs, the order in which the pairs are listed does not matter:
    both conversions return the same values with the pairs swapped. *)
Theorem calibration_pairs_commute (x nm : R) :
  0 < (px1 - px0) * (nm1 - nm0) ->
  (exists v, _px_to_nm cal x = Ok v /\ _px_to_nm swapped x = Ok v) /\
  (exists v, _nm_to_px cal nm = Ok v /\ _nm_to_px swapped nm = Ok v).
Proof.
  intros Hdir.
  assert (Hpx : px0 <> px1) by (intros E; subst; nra).
  assert (Hnm : nm0 <> nm1) by (intros E; subst; nra).
  pose proof (Rabs_diff_nonzero _ _ Hpx) as Hp.
  pose proof (Rabs_diff_nonzero _ _ Hnm) as Hn.
  pose proof (nmperpx_same_direction px0 nm0 px1 nm1 Hpx Hdir) as Hs.
  unfold cal, swapped. split; eexists; split.
  - apply px_to_nm_eq; assumption.
  - rewrite px_to_nm_eq by (apply not_eq_sym; assumption). f_equal.
    rewrite (Rabs_minus_sym nm1 nm0), (Rabs_minus_sym px1 px0).
    replace ((x - px1) * (Rabs (nm0 - nm1) / Rabs (px0 - px1)))
      with ((x - px0) * (Rabs (nm0 - nm1) / Rabs (px0 - px1))
            - (px1 - px0) * (Rabs (nm0 - nm1) / Rabs (px0 - px1)))
      by (field; assumption).
    rewrite Hs. lra.
  - apply nm_to_px_eq; assumption.
  - rewrite nm_to_px_eq by (apply not_eq_sym; assumption). f_equal.
    rewrite (Rabs_minus_sym nm1 nm0), (Rabs_minus_sym px1 px0).
    assert (Hinv : (nm1 - nm0) * (Rabs (px0 - px1) / Rabs (nm0 - nm1)) = px1 - px0).
    { rewrite <- Hs at 1. field. split; assumption. }
    replace ((nm - nm1) * (Rabs (px0 - px1) / Rabs (nm0 - nm1)))
      with ((nm - nm0) * (Rabs (px0 - px1) / Rabs (nm0 - nm1))
            - (nm1 - nm0) * (Rabs (px0 - px1) / Rabs (nm0 - nm1)))
      by (field; assumption).
    rewrite Hinv. lra.
Qed.

(** X4: with distinct pixel columns and distinct wavelengths, [_nm_to_px]
    is strictly increasing: a longer wavelength lies at a larger column. *)
Theorem nm_to_px_strictly_increasing (a b : R) :
  px0 <> px1 -> nm0 <> nm1 -> a < b ->
  exists xa xb, _nm_to_px cal a = Ok xa /\ _nm_to_px cal b = Ok xb /\ xa < xb.
Proof.
  intros Hpx Hnm Hab. unfold cal.
  eexists; eexists. repeat split; try (apply nm_to_px_eq; assumption).
  assert (Hs : 0 < Rabs (px0 - px1) / Rabs (nm0 - nm1))
    by (apply Rdiv_lt_0_compat; apply Rabs_diff_pos; assumption).
  assert (Hm : (a - nm0) * (Rabs (px0 - px1) / Rabs (nm0 - nm1))
               < (b - nm0) * (Rabs (px0 - px1) / Rabs (nm0 - nm1))).
  { apply Rmult_lt_compat_r; [exact Hs | lra]. }
  lra.
Qed.

End CalibrationLaws.

Lemma px_to_nm_nm_to_px_round_trip_witness :
  (x <- _nm_to_px calibration 500 ;; _px_to_nm calibration x) = Ok 500.
Proof.
  apply (px_to_nm_nm_to_px_round_trip 305 405 707 631 500); lra.
Defined.

Lemma calibration_pairs_commute_witness :
  (exists v, _px_to_nm calibration 100 = Ok v /\
             _px_to_nm ((707, 631), (305, 405)) 100 = Ok v) /\
  (exists v, _nm_to_px calibration 500 = Ok v /\
             _nm_to_px ((707, 631), (305, 405)) 500 = Ok v).
Proof.
  apply (calibration_pairs_commute 305 405 707 631 100 500); lra.
Defined.

Lemma nm_to_px_strictly_increasing_witness :
  exists xa xb, _nm_to_px calibration 400 = Ok xa /\
                _nm_to_px calibration 450 = Ok xb /\ xa < xb.
Proof.
  apply (nm_to_px_strictly_increasing 305 405 707 631 400 450); lra.
Defined.

(** ** More about the colour mapper *)

(** Decides the comparisons one at a time and drops the cases the
    hypotheses exclude as soon as they appear. *)
Ltac real_band :=
  unfold Rleb, Rltb;
  repeat (match goal with
          | |- context [Rle_dec ?a ?b] => destruct (Rle_dec a b)
          | |- context [Rlt_dec ?a ?b] => destruct (Rlt_dec a b)
          end; cbn [andb]; try (exfalso; lra)).

Lemma raw_rgb_bands (nm : R) :
  (380 <= nm < 440 -> raw_rgb nm = (- (nm - 440) / (440 - 380), 0, 1)) /\
  (440 <= nm < 490 -> raw_rgb nm = (0, (nm - 440) / (490 - 440), 1)) /\
  (490 <= nm < 510 -> raw_rgb nm = (0, 1, - (nm - 510) / (510 - 490))) /\
  (510 <= nm < 580 -> raw_rgb nm = ((nm - 510) / (580 - 510), 1, 0)) /\
  (580 <= nm < 645 -> raw_rgb nm = (1, - (nm - 645) / (645 - 580), 0)) /\
  (645 <= nm <= 780 -> raw_rgb nm = (1, 0, 0)) /\
  (nm < 380 \/ 780 < nm -> raw_rgb nm = (0, 0, 0)).
Proof.
  repeat split; intros H; unfold raw_rgb; real_band; reflexivity.
Qed.

Lemma visible_band (nm : R) :
  380 <= nm <= 780 ->
  380 <= nm < 440 \/ 440 <= nm < 490 \/ 490 <= nm < 510 \/
  510 <= nm < 580 \/ 580 <= nm < 645 \/ 645 <= nm <= 780.
Proof.
  intros H.
  destruct (Rlt_le_dec nm 440); [lra |].
  destruct (Rlt_le_dec nm 490); [lra |].
  destruct (Rlt_le_dec nm 510); [lra |].
  destruct (Rlt_le_dec nm 580); [lra |].
  destruct (Rlt_le_dec nm 645); lra.
Qed.

Lemma adjust_zero (m f : R) : adjust m f 0 = 0.
Proof. unfold adjust, Rltb. destruct (Rlt_dec 0 0); [lra | reflexivity]. Qed.

Lemma adjust_positive (m f c : R) :
  0 < c -> 0 < f -> adjust m f c = m * Rpower (c * f) gamma.
Proof.
  intros Hc Hf. unfold adjust, float_pow, Rltb.
  destruct (Rlt_dec 0 c); [| lra].
  destruct (Rlt_dec 0 (c * f)) as [| N]; [reflexivity |].
  exfalso. apply N. apply Rmult_lt_0_compat; assumption.
Qed.

Lemma Rpower_one (y : R) : Rpower 1 y = 1.
Proof. unfold Rpower. rewrite ln_1, Rmult_0_r. apply exp_0. Qed.

Lemma Rpower_unit_interval (x : R) : 0 < x <= 1 -> 0 < Rpower x gamma <= 1.
Proof.
  intros [Hlo Hhi]. split.
  - unfold Rpower. apply exp_pos.
  - rewrite <- (Rpower_one gamma). apply Rle_Rpower_l.
    + unfold gamma. lra.
    + split; assumption.
Qed.

Lemma factor_visible (nm : R) : 380 <= nm <= 780 -> 0.3 <= factor nm <= 1.
Proof. intros H. unfold factor. real_band; lra. Qed.

Lemma factor_invisible (nm : R) : nm < 380 \/ 780 < nm -> factor nm = 0.
Proof. intros H. unfold factor. real_band; lra. Qed.

(** X9: inside [380, 780] the taper lies between 0.3 and 1; it is zero
    exactly outside that range. *)
Theorem factor_range (nm : R) :
  (380 <= nm <= 780 -> 0.3 <= factor nm <= 1) /\
  (factor nm = 0 <-> nm < 380 \/ 780 < nm).
Proof.
  split; [apply factor_visible | split; [| apply factor_invisible]].
  intros H.
  destruct (Rlt_le_dec nm 380); [left; assumption |].
  destruct (Rlt_le_dec 780 nm); [right; assumption |].
  pose proof (factor_visible nm). lra.
Qed.

Lemma factor_range_witness :
  0.3 <= factor 400 <= 1.
Proof. apply (factor_range 400). lra. Defined.

Lemma raw_rgb_unit_interval (nm : R) :
  0 <= red (raw_rgb nm) <= 1 /\
  0 <= green (raw_rgb nm) <= 1 /\
  0 <= blue (raw_rgb nm) <= 1.
Proof.
  unfold red, green, blue, raw_rgb. real_band; cbn [fst snd]; lra.
Qed.

Lemma adjust_range (m f c : R) :
  0 <= m -> 0 <= f <= 1 -> 0 <= c <= 1 -> 0 <= adjust m f c <= m.
Proof.
  intros Hm Hf Hc. unfold adjust, float_pow, Rltb.
  destruct (Rlt_dec 0 c); [| lra].
  destruct (Rlt_dec 0 (c * f)) as [Hb | Hb]; [| lra].
  assert (c * f <= 1) by nra.
  destruct (Rpower_unit_interval (c * f)) as [H0 H1]; [lra |]. nra.
Qed.

Lemma wavelength_to_rgb_outside_visible_aux (nm m : R) :
  nm < 380 \/ 780 < nm -> _wavelength_to_rgb nm m = (0, 0, 0).
Proof.
  intros H. unfold _wavelength_to_rgb.
  destruct (raw_rgb_bands nm) as (_ & _ & _ & _ & _ & _ & Hout).
  rewrite (Hout H), adjust_zero. reflexivity.
Qed.



(** X6: for a non-negative [max_intensity] every channel lies between 0 and
    [max_intensity], at every wavelength. *)
Theorem wavelength_to_rgb_range (nm max_intensity : R) :
  0 <= max_intensity ->
  0 <= red (_wavelength_to_rgb nm max_intensity) <= max_intensity /\
  0 <= green (_wavelength_to_rgb nm max_intensity) <= max_intensity /\
  0 <= blue (_wavelength_to_rgb nm max_intensity) <= max_intensity.
Proof.
  intros Hm.
  assert (Hf : 0 <= factor nm <= 1).
  { destruct (Rlt_le_dec nm 380) as [Hlo | Hlo].
    - rewrite factor_invisible by lra. lra.
    - destruct (Rlt_le_dec 780 nm) as [Hhi | Hhi].
      + rewrite factor_invisible by lra. lra.
      + pose proof (factor_visible nm (conj Hlo Hhi)). lra. }
  pose proof (raw_rgb_unit_interval nm) as Hraw.
  unfold _wavelength_to_rgb, red, green, blue in *.
  destruct (raw_rgb nm) as [[r g] b]. cbn [fst snd] in *.
  destruct Hraw as (Hr & Hg & Hb).
  repeat split; apply adjust_range; assumption.
Qed.

Lemma wavelength_to_rgb_range_witness :
  0 <= red (_wavelength_to_rgb 600 0.5) <= 0.5 /\
  0 <= green (_wavelength_to_rgb 600 0.5) <= 0.5 /\
  0 <= blue (_wavelength_to_rgb 600 0.5) <= 0.5.
Proof. apply (wavelength_to_rgb_range 600 0.5). lra. Defined.

(** The channel that is 1 before the taper: blue up to 490 nm, green up to
    580 nm, red from there on. *)
Lemma dominant_channel (nm m : R) :
  (380 <= nm < 490 -> blue (_wavelength_to_rgb nm m) = m * Rpower (factor nm) gamma) /\
  (490 <= nm < 580 -> green (_wavelength_to_rgb nm m) = m * Rpower (factor nm) gamma) /\
  (580 <= nm <= 780 -> red (_wavelength_to_rgb nm m) = m * Rpower (factor nm) gamma).
Proof.
  destruct (raw_rgb_bands nm) as (H1 & H2 & H3 & H4 & H5 & H6 & _).
  assert (Hone : forall f, 0.3 <= f -> adjust m f 1 = m * Rpower f gamma).
  { intros f Hf. rewrite adjust_positive by lra. rewrite Rmult_1_l. reflexivity. }
  repeat split; intros H; pose proof (factor_visible nm ltac:(lra)) as [Hf _];
    unfold _wavelength_to_rgb, red, green, blue.
  - destruct (Rlt_le_dec nm 440); [rewrite H1 by lra | rewrite H2 by lra];
      cbn [fst snd]; apply Hone; assumption.
  - destruct (Rlt_le_dec nm 510); [rewrite H3 by lra | rewrite H4 by lra];
      cbn [fst snd]; apply Hone; assumption.
  - destruct (Rlt_le_dec nm 645); [rewrite H5 by lra | rewrite H6 by lra];
      cbn [fst snd]; apply Hone; assumption.
Qed.

Lemma factor_plateau (nm : R) : 420 <= nm < 701 -> factor nm = 1.
Proof. intros H. unfold factor. real_band; lra. Qed.

(** X7: between 420 and 701 nm the taper is off, so the dominant channel
    has exactly the intensity asked for: blue below 490 nm, green from 490
    to 580 nm, red from 580 nm on. *)
Theorem dominant_channel_full_intensity (nm max_intensity : R) :
  (420 <= nm < 490 -> blue (_wavelength_to_rgb nm max_intensity) = max_intensity) /\
  (490 <= nm < 580 -> green (_wavelength_to_rgb nm max_intensity) = max_intensity) /\
  (580 <= nm < 701 -> red (_wavelength_to_rgb nm max_intensity) = max_intensity).
Proof.
  destruct (dominant_channel nm max_intensity) as (Hb & Hg & Hr).
  repeat split; intros H;
    [rewrite Hb by lra | rewrite Hg by lra | rewrite Hr by lra];
    rewrite factor_plateau by lra; rewrite Rpower_one; lra.
Qed.

Lemma dominant_channel_full_intensity_witness :
  blue (_wavelength_to_rgb 450 0.5) = 0.5 /\
  green (_wavelength_to_rgb 550 0.5) = 0.5 /\
  red (_wavelength_to_rgb 700 0.5) = 0.5.
Proof.
  repeat split.
  - apply (dominant_channel_full_intensity 450 0.5). lra.
  - apply (dominant_channel_full_intensity 550 0.5). lra.
  - apply (dominant_channel_full_intensity 700 0.5). lra.
Defined.

(** Inside [380, 780] a positive intensity never gives black. *)
Lemma visible_not_black (nm m : R) :
  0 < m -> 380 <= nm <= 780 -> _wavelength_to_rgb nm m <> (0, 0, 0).
Proof.
  intros Hm H E.
  destruct (dominant_channel nm m) as (Hb & Hg & Hr).
  assert (Hpos : 0 < m * Rpower (factor nm) gamma).
  { apply Rmult_lt_0_compat; [assumption | unfold Rpower; apply exp_pos]. }
  rewrite E in Hb, Hg, Hr. unfold red, green, blue in *. cbn [fst snd] in *.
  destruct (Rlt_le_dec nm 490); [rewrite <- Hb in Hpos by lra; lra |].
  destruct (Rlt_le_dec nm 580); [rewrite <- Hg in Hpos by lra; lra |].
  rewrite <- Hr in Hpos by lra; lra.
Qed.

(** X5: outside [380, 780] nm all three channels are 0, whatever the
    intensity asked for; inside, a positive intensity never gives black. *)
Theorem wavelength_to_rgb_black_iff (nm max_intensity : R) :
  0 < max_intensity ->
  _wavelength_to_rgb nm max_intensity = (0, 0, 0) <-> nm < 380 \/ 780 < nm.
Proof.
  intros Hm. split; [| apply wavelength_to_rgb_outside_visible_aux].
  intros E.
  destruct (Rlt_le_dec nm 380); [left; assumption |].
  destruct (Rlt_le_dec 780 nm); [right; assumption |].
  exfalso. apply (visible_not_black nm max_intensity Hm); [lra | exact E].
Qed.

Lemma wavelength_to_rgb_black_iff_witness :
  _wavelength_to_rgb 900 1.0 = (0, 0, 0) <-> 900 < 380 \/ 780 < 900.
Proof. apply (wavelength_to_rgb_black_iff 900 1.0). lra. Defined.

(** X10: with the shipped calibration and a positive intensity, the
    columns drawn in black are exactly those up to 260 and those from 973
    on; every column in between gets a colour. *)
Theorem shipped_black_columns (x : Z) (max_intensity : R) :
  0 < max_intensity ->
  _px_to_rgb calibration (IZR x) max_intensity = Ok (0, 0, 0) <->
  (x <= 260 \/ 973 <= x)%Z.
Proof.
  intros Hm. unfold _px_to_rgb, calibration.
  rewrite px_to_nm_eq by lra. cbn [bind].
  rewrite Rabs_nm_range, Rabs_px_range.
  split.
  - intros E. injection E as E.
    destruct (Z_le_gt_dec x 260) as [| Hlo]; [left; assumption |].
    destruct (Z_le_gt_dec 973 x) as [| Hhi]; [right; assumption |].
    exfalso.
    assert (IZR 261 <= IZR x) by (apply IZR_le; lia).
    assert (IZR x <= IZR 972) by (apply IZR_le; lia).
    apply (visible_not_black (405 + (IZR x - 305) * (226 / 402)) max_intensity Hm).
    + split; lra.
    + exact E.
  - intros H. f_equal. apply wavelength_to_rgb_outside_visible_aux.
    destruct H as [H | H]; apply IZR_le in H; [left | right]; lra.
Qed.

Lemma shipped_black_columns_witness :
  _px_to_rgb calibration (IZR 100) 1.0 = Ok (0, 0, 0) <-> (100 <= 260 \/ 973 <= 100)%Z.
Proof. apply (shipped_black_columns 100 1.0). lra. Defined.

(** X8: before taper and gamma, the colour has no jump inside [380, 780]:
    between two wavelengths no channel changes by more than a twentieth of
    their distance (the steepest ramp is the blue one over [490, 510)). *)
Theorem raw_rgb_lipschitz (a b : R) :
  380 <= a <= 780 -> 380 <= b <= 780 ->
  Rabs (red (raw_rgb a) - red (raw_rgb b)) <= Rabs (a - b) / 20 /\
  Rabs (green (raw_rgb a) - green (raw_rgb b)) <= Rabs (a - b) / 20 /\
  Rabs (blue (raw_rgb a) - blue (raw_rgb b)) <= Rabs (a - b) / 20.
Proof.
  intros Ha Hb.
  destruct (raw_rgb_bands a) as (A1 & A2 & A3 & A4 & A5 & A6 & _).
  destruct (raw_rgb_bands b) as (B1 & B2 & B3 & B4 & B5 & B6 & _).
  destruct (visible_band a Ha) as [H | [H | [H | [H | [H | H]]]]];
    [rewrite (A1 H) | rewrite (A2 H) | rewrite (A3 H)
     | rewrite (A4 H) | rewrite (A5 H) | rewrite (A6 H)];
    clear A1 A2 A3 A4 A5 A6;
    (destruct (visible_band b Hb) as [H' | [H' | [H' | [H' | [H' | H']]]]];
     [rewrite (B1 H') | rewrite (B2 H') | rewrite (B3 H')
      | rewrite (B4 H') | rewrite (B5 H') | rewrite (B6 H')];
     clear B1 B2 B3 B4 B5 B6;
     unfold red, green, blue; cbn [fst snd];
     repeat split; unfold Rabs;
     repeat match goal with
            | |- context [Rcase_abs ?t] => destruct (Rcase_abs t)
            end; lra).
Qed.

Lemma raw_rgb_lipschitz_witness :
  Rabs (red (raw_rgb 439) - red (raw_rgb 441)) <= Rabs (439 - 441) / 20 /\
  Rabs (green (raw_rgb 439) - green (raw_rgb 441)) <= Rabs (439 - 441) / 20 /\
  Rabs (blue (raw_rgb 439) - blue (raw_rgb 441)) <= Rabs (439 - 441) / 20.
Proof. apply (raw_rgb_lipschitz 439 441); lra. Defined.

(** ** Axis ticks and their labels *)

Lemma in_arange (start stop step z : Z) :
  (0 < step)%Z ->
  In z (arange start stop step) <->
  (start <= z < stop)%Z /\ ((z - start) mod step = 0)%Z.
Proof.
  intros Hstep. unfold arange. rewrite in_map_iff. split.
  - intros [i [<- Hi]]. apply in_seq in Hi.
    assert (Hq : (Z.of_nat i + 1 <= (stop - start + step - 1) / step)%Z) by lia.
    assert (Hm : (step * ((stop - start + step - 1) / step)
                  <= stop - start + step - 1)%Z)
      by (apply Z.mul_div_le; assumption).
    split; [nia |].
    replace (start + Z.of_nat i * step - start)%Z with (Z.of_nat i * step)%Z by lia.
    apply Z.mod_mul. lia.
  - intros [[Hlo Hhi] Hmod].
    apply Z.mod_divide in Hmod; [| lia]. destruct Hmod as [k Hk].
    assert (Hk0 : (0 <= k)%Z) by nia.
    exists (Z.to_nat k). split; [lia |]. apply in_seq.
    assert ((k + 1 <= (stop - start + step - 1) / step)%Z); [| lia].
    apply Z.div_le_lower_bound; [assumption | nia].
Qed.

Lemma Sorted_map_seq (f : nat -> R) :
  (forall i, f i < f (S i)) ->
  forall n s, Sorted Rlt (map f (seq s n)).
Proof.
  intros Hf. induction n as [| n IH]; intros s; cbn [seq map].
  - constructor.
  - constructor; [apply IH |].
    destruct n; cbn [seq map]; constructor. apply Hf.
Qed.


Section Ticks.

Variables px0 nm0 px1 nm1 : R.

Let cal : calibration_t := ((px0, nm0), (px1, nm1)).

(** The wavelength of column [x] and the column of wavelength [nm]. *)
Let nm_at (x : R) : R := nm0 + (x - px0) * (Rabs (nm0 - nm1) / Rabs (px0 - px1)).
Let px_at (nm : R) : R := px0 + (nm - nm0) * (Rabs (px0 - px1) / Rabs (nm0 - nm1)).

(** X11: with distinct pixel columns and distinct wavelengths,
    [_set_ax_ticks] returns one tick for every multiple of 50 nm strictly
    between the truncated wavelengths of column 0 and of column
    [FRAME_WIDTH], placed at the column of that wavelength, in increasing
    order of column. *)
Theorem set_ax_ticks_multiples_of_50 :
  px0 <> px1 -> nm0 <> nm1 ->
  exists nm_ticks : list Z,
    _set_ax_ticks cal = Ok (map (fun nm => px_at (IZR nm)) nm_ticks) /\
    (forall nm : Z,
        In nm nm_ticks <->
        (py_int (nm_at 0) < nm < py_int (nm_at (IZR FRAME_WIDTH)))%Z /\
        (nm mod 50 = 0)%Z) /\
    Sorted Rlt (map (fun nm => px_at (IZR nm)) nm_ticks).
Proof.
  intros Hpx Hnm.
  exists (arange ((py_int (nm_at 0) / 50 + 1) * 50)
                 (py_int (nm_at (IZR FRAME_WIDTH))) 50).
  split; [| split].
  - unfold _set_ax_ticks, cal.
    rewrite !px_to_nm_eq by assumption. cbn [bind].
    apply mapM_map. intros nm _. apply nm_to_px_eq. assumption.
  - intros nm. rewrite in_arange by lia.
    pose proof (Z.mod_pos_bound (py_int (nm_at 0)) 50 ltac:(lia)) as Hb.
    pose proof (Z.div_mod (py_int (nm_at 0)) 50 ltac:(lia)) as Hd.
    replace (nm - (py_int (nm_at 0) / 50 + 1) * 50)%Z
      with (nm + (- (py_int (nm_at 0) / 50 + 1)) * 50)%Z by lia.
    rewrite Z.mod_add by lia.
    split.
    + intros [[Hlo Hhi] Hmod]. repeat split; try assumption. lia.
    + intros [[Hlo Hhi] Hmod]. repeat split; try assumption.
      apply Z.mod_divide in Hmod; [| lia]. destruct Hmod as [k Hk]. lia.
  - unfold arange. rewrite map_map. apply Sorted_map_seq.
    intros i. unfold px_at.
    assert (Hs : 0 < Rabs (px0 - px1) / Rabs (nm0 - nm1))
      by (apply Rdiv_lt_0_compat; apply Rabs_diff_pos; assumption).
    apply Rplus_lt_compat_l. apply Rmult_lt_compat_r; [exact Hs |].
    apply Rplus_lt_compat_r. apply IZR_lt. lia.
Qed.


End Ticks.

Lemma set_ax_ticks_multiples_of_50_witness :
  exists nm_ticks : list Z,
    _set_ax_ticks calibration
    = Ok (map (fun nm => 305 + (IZR nm - 405)
                               * (Rabs (305 - 707) / Rabs (405 - 631))) nm_ticks) /\
    (forall nm : Z,
        In nm nm_ticks <->
        (py_int (405 + (0 - 305) * (Rabs (405 - 631) / Rabs (305 - 707))) < nm
         < py_int (405 + (IZR FRAME_WIDTH - 305)
                         * (Rabs (405 - 631) / Rabs (305 - 707))))%Z /\
        (nm mod 50 = 0)%Z) /\
    Sorted Rlt (map (fun nm => 305 + (IZR nm - 405)
                                     * (Rabs (305 - 707) / Rabs (405 - 631)))
                    nm_ticks).
Proof.
  apply (set_ax_ticks_multiples_of_50 305 405 707 631); lra.
Defined.


(** ** More about the extractor and the polling loop *)

Lemma nth_error_range (n : Z) (i : nat) :
  (Z.of_nat i < n)%Z -> nth_error (range n) i = Some (Z.of_nat i).
Proof.
  intros H. unfold range.
  rewrite nth_error_map, (nth_error_nth' _ 0%nat) by (rewrite length_seq; lia).
  rewrite seq_nth by lia. reflexivity.
Qed.

Lemma nth_error_map_range {A : Type} (g : Z -> A) (n : Z) (i : nat) (a : A) :
  nth_error (map g (range n)) i = Some a ->
  (Z.of_nat i < n)%Z /\ a = g (Z.of_nat i).
Proof.
  intros H.
  assert (Hi : (Z.of_nat i < n)%Z).
  { assert (Hlen : (i < List.length (map g (range n)))%nat)
      by (apply nth_error_Some; rewrite H; discriminate).
    rewrite length_map in Hlen. pose proof (length_range n). lia. }
  split; [exact Hi |].
  rewrite nth_error_map, nth_error_range in H by exact Hi.
  injection H as <-. reflexivity.
Qed.

Lemma mapM_length {A B : Type} (f : A -> result B) (l : list A) (l' : list B) :
  mapM f l = Ok l' -> List.length l' = List.length l.
Proof.
  revert l'. induction l as [| a l IH]; intros l' H; cbn [mapM] in H.
  - injection H as <-. reflexivity.
  - destruct (f a) as [b |]; cbn [bind] in H; [| discriminate].
    destruct (mapM f l) as [bs |]; cbn [bind] in H; [| discriminate].
    injection H as <-. cbn [List.length]. rewrite (IH bs eq_refl). reflexivity.
Qed.

Section Rendering.

Variable bgr2gray : pixel -> Z.
Variable resize : frame -> Z * Z -> frame.
Variables px0 nm0 px1 nm1 : R.

Let cal : calibration_t := ((px0, nm0), (px1, nm1)).

Let nm_of (x : Z) : R :=
  nm0 + (IZR x - px0) * (Rabs (nm0 - nm1) / Rabs (px0 - px1)).

(** The geometry and the colours built from the row [row] of a frame of
    width [w]. *)
Let intensity (row : list pixel) (x : Z) : Z :=
  nth (Z.to_nat x) (map bgr2gray row) 0%Z.
Let segments_of (w : Z) (row : list pixel) : list (point * point) :=
  map (fun x => ((x, intensity row x), ((x + 1)%Z, intensity row (x + 1)%Z)))
      (range (w - 1)).
Let verts_of (w : Z) (row : list pixel) : list (point * point * point * point) :=
  map (fun x => ((x, 0%Z), (x, intensity row x),
                 ((x + 1)%Z, intensity row (x + 1)%Z), ((x + 1)%Z, 0%Z)))
      (range (w - 1)).
Let colors_of (m : R) (w : Z) : list rgb :=
  map (fun x => _wavelength_to_rgb (nm_of x) m) (range (w - 1)).

(** What [_draw_spectrum] returns, given the middle row. *)
Lemma draw_spectrum_result (self : app) (f : frame) (row : list pixel) :
  (1 <= height f)%Z -> (1 <= width f)%Z ->
  nth_error (rows f) (Z.to_nat (height f / 2)) = Some row ->
  Z.of_nat (List.length row) = width f ->
  px0 <> px1 \/ width f = 1%Z ->
  _draw_spectrum bgr2gray cal self f
  = Ok (mkApp (_current_frame self)
              (segments_of (width f) row) (colors_of 0.5 (width f))
              (verts_of (width f) row) (colors_of 1.0 (width f))
              (colors_of 1.0 (width f))
              (xaxis_ticks self) (overlay_tk_img self) (status_lbl self)
              (draw_idle_calls self) (after_calls self) (files_written self)).
Proof.
  intros Hh Hw Hrow Hlen Hcal.
  assert (Hmid : (0 <= height f / 2
                  < Z.of_nat (List.length (map (map bgr2gray) (rows f))))%Z).
  { rewrite length_map. split; [apply Z.div_pos; lia |].
    assert (Z.to_nat (height f / 2) < List.length (rows f))%nat
      by (apply nth_error_Some; rewrite Hrow; discriminate).
    assert (0 <= height f / 2)%Z by (apply Z.div_pos; lia). lia. }
  assert (Hline : getitem (map (map bgr2gray) (rows f)) (height f / 2)
                  = Ok (map bgr2gray row)).
  { rewrite (getitem_nth _ _ [] Hmid). f_equal.
    apply nth_error_nth. rewrite nth_error_map, Hrow. reflexivity. }
  assert (Hget : forall x, In x (range (width f - 1)) ->
            getitem (map bgr2gray row) x = Ok (intensity row x) /\
            getitem (map bgr2gray row) (x + 1) = Ok (intensity row (x + 1))).
  { intros x Hx. apply in_range in Hx.
    split; apply getitem_nth; rewrite length_map; lia. }
  assert (Hrgb : forall m x, In x (range (width f - 1)) ->
            _px_to_rgb cal (IZR x) m = Ok (_wavelength_to_rgb (nm_of x) m)).
  { intros m x Hx. destruct Hcal as [Hpx | Hone].
    - unfold _px_to_rgb, cal. rewrite px_to_nm_eq by assumption. reflexivity.
    - apply in_range in Hx. lia. }
  unfold _draw_spectrum.
  rewrite cvtColor_BGR2GRAY_nonempty by assumption. cbn [bind].
  rewrite Hline. cbn [bind].
  rewrite (mapM_map _ (fun x => _wavelength_to_rgb (nm_of x) 0.5))
    by (apply Hrgb).
  cbn [bind].
  rewrite (mapM_map _ (fun x => ((x, intensity row x),
                                 ((x + 1)%Z, intensity row (x + 1)%Z)))).
  2:{ intros x Hx. destruct (Hget x Hx) as [-> ->]. reflexivity. }
  cbn [bind].
  rewrite (mapM_map _ (fun x => _wavelength_to_rgb (nm_of x) 1.0))
    by (apply Hrgb).
  cbn [bind].
  rewrite (mapM_map _ (fun x => ((x, 0%Z), (x, intensity row x),
                                 ((x + 1)%Z, intensity row (x + 1)%Z),
                                 ((x + 1)%Z, 0%Z)))).
  2:{ intros x Hx. destruct (Hget x Hx) as [-> ->]. reflexivity. }
  reflexivity.
Qed.

(** X13: a tick that reads a non-empty frame stores it as the last frame,
    shows its thumbnail, takes line and fill from [_draw_spectrum], asks
    for one redraw and arms one timer of 30 ms; the status, the files and
    the axis ticks stay as they were. *)
Theorem update_with_frame (overlay_size : Z * Z) (self : app) (f : frame) :
  frame_wf f -> (1 <= height f)%Z -> (1 <= width f)%Z -> px0 <> px1 ->
  exists drawn self' : app,
    _draw_spectrum bgr2gray cal self f = Ok drawn /\
    update bgr2gray resize cal overlay_size (Some f) self = Ok self' /\
    _current_frame self' = Some f /\
    overlay_tk_img self' = Some (cvtColor_BGR2RGB (resize f overlay_size)) /\
    lc_segments self' = lc_segments drawn /\
    lc_color self' = lc_color drawn /\
    pc_verts self' = pc_verts drawn /\
    pc_facecolor self' = pc_facecolor drawn /\
    pc_edgecolor self' = pc_edgecolor drawn /\
    draw_idle_calls self' = S (draw_idle_calls self) /\
    after_calls self' = 30%Z :: after_calls self /\
    status_lbl self' = status_lbl self /\
    files_written self' = files_written self /\
    xaxis_ticks self' = xaxis_ticks self.
Proof.
  intros Hwf Hh Hw Hpx.
  destruct (middle_row f Hwf Hh) as [row [Hrow Hlen]].
  pose proof (draw_spectrum_result self f row Hh Hw Hrow Hlen (or_introl Hpx)) as Hd.
  eexists; eexists. split; [exact Hd |].
  unfold update. rewrite Hd. cbn. repeat split.
Qed.

(** X14: [_draw_spectrum] reads nothing but the middle row: two frames of
    the same width with the same middle row give the same line, fill and
    colours, whatever was displayed before. *)
Theorem draw_spectrum_middle_row_only (self1 self2 : app) (f1 f2 : frame) :
  frame_wf f1 -> frame_wf f2 ->
  (1 <= height f1)%Z -> (1 <= height f2)%Z ->
  (1 <= width f1)%Z -> width f1 = width f2 -> px0 <> px1 ->
  nth_error (rows f1) (Z.to_nat (height f1 / 2))
  = nth_error (rows f2) (Z.to_nat (height f2 / 2)) ->
  exists drawn1 drawn2 : app,
    _draw_spectrum bgr2gray cal self1 f1 = Ok drawn1 /\
    _draw_spectrum bgr2gray cal self2 f2 = Ok drawn2 /\
    lc_segments drawn1 = lc_segments drawn2 /\
    lc_color drawn1 = lc_color drawn2 /\
    pc_verts drawn1 = pc_verts drawn2 /\
    pc_facecolor drawn1 = pc_facecolor drawn2 /\
    pc_edgecolor drawn1 = pc_edgecolor drawn2.
Proof.
  intros Hwf1 Hwf2 Hh1 Hh2 Hw1 Hw Hpx Hrows.
  destruct (middle_row f1 Hwf1 Hh1) as [row [Hrow1 Hlen1]].
  assert (Hrow2 : nth_error (rows f2) (Z.to_nat (height f2 / 2)) = Some row)
    by (rewrite <- Hrows; exact Hrow1).
  eexists; eexists. split; [| split].
  - apply (draw_spectrum_result self1 f1 row); auto.
  - apply (draw_spectrum_result self2 f2 row); auto; lia.
  - cbn. rewrite Hw. repeat split.
Qed.

(** X15: a frame one pixel wide draws nothing and raises nothing, even
    under a calibration whose conversions would raise. *)
Theorem draw_spectrum_single_column (self : app) (f : frame) :
  frame_wf f -> (1 <= height f)%Z -> width f = 1%Z ->
  exists drawn : app,
    _draw_spectrum bgr2gray cal self f = Ok drawn /\
    lc_segments drawn = [] /\ lc_color drawn = [] /\
    pc_verts drawn = [] /\ pc_facecolor drawn = [] /\ pc_edgecolor drawn = [].
Proof.
  intros Hwf Hh Hw.
  destruct (middle_row f Hwf Hh) as [row [Hrow Hlen]].
  eexists. split.
  - apply (draw_spectrum_result self f row); auto; lia.
  - cbn. unfold segments_of, verts_of, colors_of. rewrite Hw. cbn. repeat split.
Qed.

(** X16: the line is connected and the fill sits under it: a segment ends
    where the next one starts, and the quadrilateral of a column has the
    segment of that column as its top edge and stands on the baseline at
    the columns [x] and [x + 1]. *)
Theorem draw_spectrum_connected (self : app) (f : frame) :
  frame_wf f -> (1 <= height f)%Z -> (1 <= width f)%Z -> px0 <> px1 ->
  exists drawn : app,
    _draw_spectrum bgr2gray cal self f = Ok drawn /\
    (forall i s s',
        nth_error (lc_segments drawn) i = Some s ->
        nth_error (lc_segments drawn) (S i) = Some s' ->
        snd s = fst s') /\
    (forall i s, nth_error (lc_segments drawn) i = Some s ->
                 exists p0 p3,
                   nth_error (pc_verts drawn) i = Some (p0, fst s, snd s, p3) /\
                   p0 = (Z.of_nat i, 0%Z) /\ p3 = ((Z.of_nat i + 1)%Z, 0%Z) /\
                   fst (fst s) = Z.of_nat i /\ fst (snd s) = (Z.of_nat i + 1)%Z).
Proof.
  intros Hwf Hh Hw Hpx.
  destruct (middle_row f Hwf Hh) as [row [Hrow Hlen]].
  eexists. split; [apply (draw_spectrum_result self f row); auto |].
  cbn [lc_segments pc_verts]. unfold segments_of, verts_of. split.
  - intros i s s' Hs Hs'.
    apply nth_error_map_range in Hs. apply nth_error_map_range in Hs'.
    destruct Hs as [_ ->], Hs' as [_ ->]. cbn [fst snd].
    replace (Z.of_nat (S i)) with (Z.of_nat i + 1)%Z by lia. reflexivity.
  - intros i s Hs. apply nth_error_map_range in Hs. destruct Hs as [Hi ->].
    eexists; eexists. split; [| repeat split].
    rewrite nth_error_map, nth_error_range by exact Hi. reflexivity.
Qed.

End Rendering.

Section Polling.

Variable bgr2gray : pixel -> Z.
Variable resize : frame -> Z * Z -> frame.
Variable cal : calibration_t.
Variable overlay_size : Z * Z.

Lemma bind_Ok_inv {A B : Type} (m : result A) (k : A -> result B) (b : B) :
  bind m k = Ok b -> exists a, m = Ok a /\ k a = Ok b.
Proof.
  destruct m as [a | e]; cbn [bind]; intros H; [| discriminate].
  exists a. split; [reflexivity | exact H].
Qed.

(** Whatever [_draw_spectrum] returns is consistent. *)
Lemma draw_spectrum_display_consistent (self drawn : app) (f : frame) :
  _draw_spectrum bgr2gray cal self f = Ok drawn -> display_consistent drawn.
Proof.
  unfold _draw_spectrum. intros H.
  apply bind_Ok_inv in H as (gray & _ & H).
  apply bind_Ok_inv in H as (line & _ & H).
  apply bind_Ok_inv in H as (colors & E1 & H).
  apply bind_Ok_inv in H as (segments & E2 & H).
  apply bind_Ok_inv in H as (colors' & E3 & H).
  apply bind_Ok_inv in H as (vertices & E4 & H).
  injection H as <-.
  apply mapM_length in E1, E2, E3, E4.
  unfold display_consistent. cbn. repeat split.
  - exact (eq_trans E1 (eq_sym E2)).
  - exact (eq_trans E4 (eq_sym E2)).
  - exact (eq_trans E3 (eq_sym E4)).
Qed.

(** One tick, whatever it reads, keeps the collections consistent. *)
Lemma update_display_consistent (read : option frame) (self self' : app) :
  update bgr2gray resize cal overlay_size read self = Ok self' ->
  display_consistent self -> display_consistent self'.
Proof.
  unfold update. intros H Hc.
  apply bind_Ok_inv in H as (mid & Hmid & H). injection H as <-.
  destruct read as [f |].
  - apply bind_Ok_inv in Hmid as (drawn & Hd & Hmid). injection Hmid as <-.
    apply draw_spectrum_display_consistent in Hd. exact Hd.
  - injection Hmid as <-. exact Hc.
Qed.

(** X18: the polling loop keeps the display consistent, for any frames and
    any calibration: whenever it has not raised, the line has one colour per
    segment and the fill one quadrilateral per segment, each with its face
    colour and the same edge colour. *)
Theorem run_forever_display_consistent
        (reads : list (option frame)) (self self' : app) :
  run_forever bgr2gray resize cal overlay_size reads self = Ok self' ->
  display_consistent self -> display_consistent self'.
Proof.
  revert self. induction reads as [| read reads IH]; intros self H Hc;
    cbn [run_forever] in H.
  - injection H as <-. exact Hc.
  - destruct (update bgr2gray resize cal overlay_size read self) as [mid |] eqn:E;
      cbn [bind] in H; [| discriminate].
    apply (IH mid H). exact (update_display_consistent read self mid E Hc).
Qed.

End Polling.

Lemma repeat_app_cons {A : Type} (a : A) (n : nat) (l : list A) :
  repeat a n ++ a :: l = a :: repeat a n ++ l.
Proof.
  induction n as [| n IH]; simpl; [reflexivity |].
  rewrite IH. reflexivity.
Qed.

Section PollingTrace.

Variable bgr2gray : pixel -> Z.
Variable resize : frame -> Z * Z -> frame.
Variables px0 nm0 px1 nm1 : R.
Variable overlay_size : Z * Z.

Let cal : calibration_t := ((px0, nm0), (px1, nm1)).

(** What a run over usable reads leaves behind. *)
Lemma run_forever_usable_reads
        (timestamp : string) (reads : list (option frame)) (self : app) :
  px0 <> px1 -> Forall usable_read reads ->
  exists self' : app,
    run_forever bgr2gray resize cal overlay_size reads self = Ok self' /\
    _current_frame self' = latest_frame reads (_current_frame self) /\
    after_calls self' = repeat 30%Z (List.length reads) ++ after_calls self /\
    draw_idle_calls self' = (frames_read reads + draw_idle_calls self)%nat /\
    status_lbl self' = status_lbl self /\
    files_written self' = files_written self /\
    xaxis_ticks self' = xaxis_ticks self /\
    files_written (_save_snapshot timestamp self')
    = match latest_frame reads (_current_frame self) with
      | Some f => savefig ("spectrum_" ++ timestamp ++ "_graph.png")
                    :: imwrite ("spectrum_" ++ timestamp ++ ".png") f
                    :: files_written self
      | None => files_written self
      end.
Proof.
  intros Hpx Hreads. revert self.
  induction Hreads as [| read reads Hread _ IH]; intros self.
  - exists self. cbn. repeat split.
    unfold _save_snapshot. destruct (_current_frame self); reflexivity.
  - assert (Hstep : exists mid,
               update bgr2gray resize cal overlay_size read self = Ok mid /\
               _current_frame mid
               = match read with Some f => Some f | None => _current_frame self end /\
               after_calls mid = 30%Z :: after_calls self /\
               draw_idle_calls mid
               = ((match read with Some _ => 1 | None => 0 end)
                  + draw_idle_calls self)%nat /\
               status_lbl mid = status_lbl self /\
               files_written mid = files_written self /\
               xaxis_ticks mid = xaxis_ticks self).
    { destruct read as [f |].
      - destruct Hread as (Hwf & Hh & Hw).
        destruct (middle_row f Hwf Hh) as [row [Hrow Hlen]].
        eexists. split.
        + unfold update, cal.
          rewrite (draw_spectrum_result bgr2gray px0 nm0 px1 nm1 self f row)
            by auto.
          cbn. reflexivity.
        + cbn. repeat split.
      - eexists. split; [reflexivity |]. cbn. repeat split. }
    destruct Hstep as (mid & Hup & Hf & Ha & Hd & Hs & Hw & Ht).
    destruct (IH mid) as (self' & Hrun & Hf' & Ha' & Hd' & Hs' & Hw' & Ht' & Hsnap).
    exists self'. cbn [run_forever]. rewrite Hup. cbn [bind].
    split; [exact Hrun |].
    assert (Hlatest : latest_frame (read :: reads) (_current_frame self)
                      = latest_frame reads (_current_frame mid)).
    { unfold latest_frame. cbn [fold_left]. rewrite Hf. reflexivity. }
    rewrite Hlatest. repeat split.
    + exact Hf'.
    + rewrite Ha', Ha. cbn [List.length repeat]. apply repeat_app_cons.
    + rewrite Hd', Hd. unfold frames_read. cbn [filter].
      destruct read; cbn [List.length]; lia.
    + congruence.
    + congruence.
    + congruence.
    + rewrite Hsnap, Hw. reflexivity.
Qed.

(** X17: over any sequence of usable reads the loop does not raise; it
    arms one timer per tick and asks for one redraw per frame read, keeps
    the most recent frame, and touches neither the status, nor the files,
    nor the axis ticks.  A snapshot taken afterwards saves exactly that most
    recent frame, and nothing when no read has ever yielded one. *)
Theorem run_forever_trace
        (timestamp : string) (reads : list (option frame)) (self : app) :
  px0 <> px1 -> Forall usable_read reads ->
  exists self' : app,
    run_forever bgr2gray resize cal overlay_size reads self = Ok self' /\
    _current_frame self' = latest_frame reads (_current_frame self) /\
    after_calls self' = repeat 30%Z (List.length reads) ++ after_calls self /\
    draw_idle_calls self' = (frames_read reads + draw_idle_calls self)%nat /\
    status_lbl self' = status_lbl self /\
    files_written self' = files_written self /\
    xaxis_ticks self' = xaxis_ticks self /\
    files_written (_save_snapshot timestamp self')
    = match latest_frame reads (_current_frame self) with
      | Some f => savefig ("spectrum_" ++ timestamp ++ "_graph.png")
                    :: imwrite ("spectrum_" ++ timestamp ++ ".png") f
                    :: files_written self
      | None => files_written self
      end.
Proof. exact (run_forever_usable_reads timestamp reads self). Qed.



End PollingTrace.

(** ** The properties above on a frame of three rows

    The middle row has the grey levels 0, 64, 128 and 255; the luminance is
    OpenCV's 8-bit one and the thumbnail is the frame itself. *)

Lemma update_with_frame_witness :
  let gray : pixel -> Z :=
    fun p => let '(b, g, r) := p in
             ((b * 1868 + g * 9617 + r * 4899 + 8192) / 16384)%Z in
  let grey (v : Z) : pixel := (v, v, v) in
  let f := mkFrame 3 4 [ [grey 7; grey 7; grey 7; grey 7];
                         [grey 0; grey 64; grey 128; grey 255];
                         [grey 9; grey 9; grey 9; grey 9] ]%Z in
  let self := mkApp None [] [] [] [] [] [] None "Ready" 0 [] [] in
  exists self' : app,
    update gray (fun f _ => f) calibration (320, 240)%Z (Some f) self = Ok self' /\
    _current_frame self' = Some f /\
    overlay_tk_img self' = Some f /\
    draw_idle_calls self' = 1%nat /\
    after_calls self' = [30%Z] /\
    files_written self' = [].
Proof.
  intros gray grey f self.
  destruct (update_with_frame gray (fun f _ => f) 305 405 707 631
                              (320, 240)%Z self f)
    as (drawn & self' & _ & Hup & Hf & Ho & _ & _ & _ & _ & _ & Hd & Ha & _ & Hw & _).
  - split; [reflexivity | repeat constructor].
  - cbn. lia.
  - cbn. lia.
  - lra.
  - exists self'. repeat split; assumption.
Defined.

Lemma draw_spectrum_middle_row_only_witness :
  let gray : pixel -> Z :=
    fun p => let '(b, g, r) := p in
             ((b * 1868 + g * 9617 + r * 4899 + 8192) / 16384)%Z in
  let grey (v : Z) : pixel := (v, v, v) in
  let f1 := mkFrame 3 4 [ [grey 7; grey 7; grey 7; grey 7];
                          [grey 0; grey 64; grey 128; grey 255];
                          [grey 9; grey 9; grey 9; grey 9] ]%Z in
  let f2 := mkFrame 2 4 [ [grey 1; grey 2; grey 3; grey 4];
                          [grey 0; grey 64; grey 128; grey 255] ]%Z in
  let self1 := mkApp None [] [] [] [] [] [] None "Ready" 0 [] [] in
  let self2 := mkApp (Some f1) [] [] [] [] [] [] None "Ready" 3 [30%Z] [] in
  exists drawn1 drawn2 : app,
    _draw_spectrum gray calibration self1 f1 = Ok drawn1 /\
    _draw_spectrum gray calibration self2 f2 = Ok drawn2 /\
    lc_segments drawn1 = lc_segments drawn2 /\
    lc_color drawn1 = lc_color drawn2 /\
    pc_verts drawn1 = pc_verts drawn2 /\
    pc_facecolor drawn1 = pc_facecolor drawn2 /\
    pc_edgecolor drawn1 = pc_edgecolor drawn2.
Proof.
  intros gray grey f1 f2 self1 self2.
  apply (draw_spectrum_middle_row_only gray 305 405 707 631 self1 self2 f1 f2).
  - split; [reflexivity | repeat constructor].
  - split; [reflexivity | repeat constructor].
  - cbn. lia.
  - cbn. lia.
  - cbn. lia.
  - reflexivity.
  - lra.
  - reflexivity.
Defined.

Lemma draw_spectrum_single_column_witness :
  let gray : pixel -> Z :=
    fun p => let '(b, g, r) := p in
             ((b * 1868 + g * 9617 + r * 4899 + 8192) / 16384)%Z in
  let f := mkFrame 2 1 [ [(1, 2, 3)]; [(4, 5, 6)] ]%Z in
  let self := mkApp None [] [] [] [] [] [] None "Ready" 0 [] [] in
  exists drawn : app,
    _draw_spectrum gray ((305, 405), (305, 405)) self f = Ok drawn /\
    lc_segments drawn = [] /\ lc_color drawn = [] /\
    pc_verts drawn = [] /\ pc_facecolor drawn = [] /\ pc_edgecolor drawn = [].
Proof.
  intros gray f self.
  apply (draw_spectrum_single_column gray 305 405 305 405 self f).
  - split; [reflexivity | repeat constructor].
  - cbn. lia.
  - reflexivity.
Defined.

Lemma draw_spectrum_connected_witness :
  let gray : pixel -> Z :=
    fun p => let '(b, g, r) := p in
             ((b * 1868 + g * 9617 + r * 4899 + 8192) / 16384)%Z in
  let grey (v : Z) : pixel := (v, v, v) in
  let f := mkFrame 3 4 [ [grey 7; grey 7; grey 7; grey 7];
                         [grey 0; grey 64; grey 128; grey 255];
                         [grey 9; grey 9; grey 9; grey 9] ]%Z in
  let self := mkApp None [] [] [] [] [] [] None "Ready" 0 [] [] in
  exists drawn : app,
    _draw_spectrum gray calibration self f = Ok drawn /\
    (forall i s s',
        nth_error (lc_segments drawn) i = Some s ->
        nth_error (lc_segments drawn) (S i) = Some s' ->
        snd s = fst s') /\
    (forall i s, nth_error (lc_segments drawn) i = Some s ->
                 exists p0 p3,
                   nth_error (pc_verts drawn) i = Some (p0, fst s, snd s, p3) /\
                   p0 = (Z.of_nat i, 0%Z) /\ p3 = ((Z.of_nat i + 1)%Z, 0%Z) /\
                   fst (fst s) = Z.of_nat i /\ fst (snd s) = (Z.of_nat i + 1)%Z).
Proof.
  intros gray grey f self.
  apply (draw_spectrum_connected gray 305 405 707 631 self f).
  - split; [reflexivity | repeat constructor].
  - cbn. lia.
  - cbn. lia.
  - lra.
Defined.

Lemma run_forever_trace_witness :
  let gray : pixel -> Z :=
    fun p => let '(b, g, r) := p in
             ((b * 1868 + g * 9617 + r * 4899 + 8192) / 16384)%Z in
  let grey (v : Z) : pixel := (v, v, v) in
  let f := mkFrame 3 4 [ [grey 7; grey 7; grey 7; grey 7];
                         [grey 0; grey 64; grey 128; grey 255];
                         [grey 9; grey 9; grey 9; grey 9] ]%Z in
  let self := mkApp None [] [] [] [] [] [] None "Ready" 0 [] [] in
  exists self' : app,
    run_forever gray (fun f _ => f) calibration (320, 240)%Z
                [None; Some f; None] self = Ok self' /\
    _current_frame self' = Some f /\
    after_calls self' = [30; 30; 30]%Z /\
    draw_idle_calls self' = 1%nat /\
    status_lbl self' = "Ready"%string /\
    files_written self' = [] /\
    files_written (_save_snapshot "20260214_101500" self')
    = [savefig "spectrum_20260214_101500_graph.png";
       imwrite "spectrum_20260214_101500.png" f].
Proof.
  intros gray grey f self.
  destruct (run_forever_trace gray (fun f _ => f) 305 405 707 631 (320, 240)%Z
                              "20260214_101500" [None; Some f; None] self)
    as (self' & Hrun & Hf & Ha & Hd & Hs & Hw & _ & Hsnap).
  - lra.
  - constructor; [exact I |].
    constructor; [| constructor; [exact I | constructor]].
    split; [split; [reflexivity | repeat constructor] | cbn; lia].
  - exists self'. repeat split; assumption.
Defined.

Lemma run_forever_display_consistent_witness :
  let gray : pixel -> Z :=
    fun p => let '(b, g, r) := p in
             ((b * 1868 + g * 9617 + r * 4899 + 8192) / 16384)%Z in
  let grey (v : Z) : pixel := (v, v, v) in
  let f := mkFrame 3 4 [ [grey 7; grey 7; grey 7; grey 7];
                         [grey 0; grey 64; grey 128; grey 255];
                         [grey 9; grey 9; grey 9; grey 9] ]%Z in
  let self := mkApp None [] [] [] [] [] [] None "Ready" 0 [] [] in
  exists self' : app,
    run_forever gray (fun f _ => f) calibration (320, 240)%Z [Some f; None] self
    = Ok self' /\
    display_consistent self'.
Proof.
  intros gray grey f self.
  eexists. split.
  - cbn [run_forever]. unfold update at 1, calibration.
    rewrite (draw_spectrum_result gray 305 405 707 631 self f
               [grey 0; grey 64; grey 128; grey 255]%Z);
      [| cbn; lia | cbn; lia | reflexivity | reflexivity | left; lra].
    cbn [bind]. reflexivity.
  - eapply (run_forever_display_consistent gray (fun f _ => f) calibration
              (320, 240)%Z [Some f; None] self).
    + cbn [run_forever]. unfold update at 1, calibration.
      rewrite (draw_spectrum_result gray 305 405 707 631 self f
                 [grey 0; grey 64; grey 128; grey 255]%Z);
        [| cbn; lia | cbn; lia | reflexivity | reflexivity | left; lra].
      cbn [bind]. reflexivity.
    + unfold display_consistent. cbn. repeat split.
Defined.


(** ** The state at construction *)


